(** * Afluencia Metro CDMX dashboard: a shallow embedding of [main.py]

    The dashboard loads ridership rows and station geometry, normalises
    station and line names, aggregates and joins the two tables, filters by
    line and month range, and hands a pivoted table to a line chart and an
    aggregated table to a map and a ranking.

    Modelling conventions.
    - A Python [str] is a [string] whose characters are the code points
      0..255 (ASCII and Latin-1, which covers Spanish names); [lower],
      [isspace] and the [unidecode] table are given for that range.
    - A pandas data frame is the list of its rows, in row order; a column is
      a record field.  A missing value (NaN) is [None].
    - Ridership counts are integers ([Z]); the float64 quotient of the
      marker size is taken in exact rationals ([Q]).
    - A Python exception is a result [None] of the function that raises,
      and an [error] of [main]. *)

From Stdlib Require Import List Bool Arith ZArith QArith Lia.
From Stdlib Require Import Ascii String DecimalString DecimalN.
From Stdlib Require Import Permutation.
Import ListNotations.

Local Close Scope Q_scope.
Local Open Scope string_scope.
Local Open Scope list_scope.
Local Open Scope N_scope.

(** ** Python string builtins *)

Module PyStr.

Definition code (c : ascii) : N := N_of_ascii c.

Definition chr (n : N) : string := String (ascii_of_N n) "".

Definition is_ascii_char (c : ascii) : bool := (code c <? 128)%N.

(** [str.isspace] on one character, code points below 256. *)
Definition isspace (c : ascii) : bool :=
  let n := code c in
  ((9 <=? n) && (n <=? 13) || (28 <=? n) && (n <=? 32)
   || (n =? 133) || (n =? 160))%N.

(** [str.lower] on one character: A-Z, and the Latin-1 capitals
    U+00C0..U+00DE except the multiplication sign U+00D7. *)
Definition lower_char (c : ascii) : ascii :=
  let n := code c in
  if ((65 <=? n) && (n <=? 90))%N then ascii_of_N (n + 32)
  else if ((192 <=? n) && (n <=? 222) && negb (n =? 215))%N
       then ascii_of_N (n + 32)
  else c.

Fixpoint lower (s : string) : string :=
  match s with
  | "" => ""
  | String c s' => String (lower_char c) (lower s')
  end.

(** [s.lstrip(chars)]: drop the leading characters that satisfy [p]. *)
Fixpoint lstrip_chars (p : ascii -> bool) (s : string) : string :=
  match s with
  | "" => ""
  | String c s' => if p c then lstrip_chars p s' else s
  end.

Fixpoint rstrip_chars (p : ascii -> bool) (s : string) : string :=
  match s with
  | "" => ""
  | String c s' =>
      match rstrip_chars p s' with
      | "" => if p c then "" else String c ""
      | r => String c r
      end
  end.

(** [s.strip()] *)
Definition strip (s : string) : string :=
  rstrip_chars isspace (lstrip_chars isspace s).

(** [s.lstrip('0')] *)
Definition lstrip_zeros (s : string) : string :=
  lstrip_chars (Ascii.eqb "0") s.

(** [old in s] *)
Fixpoint contains (old s : string) : bool :=
  prefix old s ||
  match s with
  | "" => false
  | String _ s' => contains old s'
  end.

(** [s.replace(old, new)] for a non-empty [old]: the occurrences are
    replaced from left to right and do not overlap.  [skip] counts the
    characters of a matched occurrence that are still to be dropped. *)
Fixpoint replace_from (old new : string) (skip : nat) (s : string) : string :=
  match s with
  | "" => ""
  | String c s' =>
      match skip with
      | S k => replace_from old new k s'
      | O =>
          if prefix old s
          then new ++ replace_from old new (String.length old - 1) s'
          else String c (replace_from old new 0 s')
      end
  end.

(** With an empty [old], Python puts [new] before every character and at
    the end. *)
Fixpoint intersperse (new s : string) : string :=
  match s with
  | "" => new
  | String c s' => new ++ String c (intersperse new s')
  end.

Definition replace (old new s : string) : string :=
  match old with
  | "" => intersperse new s
  | _ => replace_from old new 0 s
  end.

Fixpoint all_chars (p : ascii -> bool) (s : string) : bool :=
  match s with
  | "" => true
  | String c s' => p c && all_chars p s'
  end.

Definition is_ascii (s : string) : bool := all_chars is_ascii_char s.

Definition head_char (s : string) : option ascii :=
  match s with
  | "" => None
  | String c _ => Some c
  end.

Fixpoint last_char (s : string) : option ascii :=
  match s with
  | "" => None
  | String c "" => Some c
  | String _ s' => last_char s'
  end.

End PyStr.

(** ** The [unidecode] package, code points below 256 *)

Module Unidecode.
Import PyStr.

(** Table [x000] of the package from U+0080 on; ASCII is returned as it
    is. *)
Definition x000_high : list string :=
  [ ""; ""; ""; ""; ""; ""; ""; ""; ""; ""; ""; ""; ""; ""; ""; "";
    ""; ""; ""; ""; ""; ""; ""; ""; ""; ""; ""; ""; ""; ""; ""; "";
    " "; "!"; "C/"; "PS"; "$?"; "Y="; "|"; "SS";
    chr 34; "(c)"; "a"; "<<"; "!"; ""; "(r)"; "-";
    "deg"; "+-"; "2"; "3"; "'"; "u"; "P"; "*";
    ","; "1"; "o"; ">>"; " 1/4"; " 1/2"; " 3/4"; "?";
    "A"; "A"; "A"; "A"; "A"; "A"; "AE"; "C";
    "E"; "E"; "E"; "E"; "I"; "I"; "I"; "I";
    "D"; "N"; "O"; "O"; "O"; "O"; "O"; "x";
    "O"; "U"; "U"; "U"; "U"; "Y"; "Th"; "ss";
    "a"; "a"; "a"; "a"; "a"; "a"; "ae"; "c";
    "e"; "e"; "e"; "e"; "i"; "i"; "i"; "i";
    "d"; "n"; "o"; "o"; "o"; "o"; "o"; "/";
    "o"; "u"; "u"; "u"; "u"; "y"; "th"; "y" ].

Definition unidecode_char (c : ascii) : string :=
  if is_ascii_char c then String c ""
  else nth (N.to_nat (code c) - 128) x000_high "".

Fixpoint unidecode (s : string) : string :=
  match s with
  | "" => ""
  | String c s' => unidecode_char c ++ unidecode s'
  end.

End Unidecode.

Import PyStr Unidecode.

(** ** Name normalisation ([main.py], lines 15-29) *)

(** The [replacements] dict, in insertion order. *)
Definition replacements : list (string * string) :=
  [ ("terminal aerea", "terminal area");
    ("lazaro cardenas", "l. cardenas");
    ("ninos heroes/poder judicial cdmx", "ninos heroes");
    ("uam azcapotzalco", "uam-azcapotzalco");
    ("mixhiuca", "mixiuhca") ].

(** The loop over [replacements.items()]. *)
Fixpoint apply_replacements (table : list (string * string)) (cleaned : string)
  : string :=
  match table with
  | [] => cleaned
  | (old, new) :: rest =>
      apply_replacements rest
        (if contains old cleaned then replace old new cleaned else cleaned)
  end.

Definition clean_station_name (name : string) : string :=
  apply_replacements replacements (unidecode (strip (lower name))).

(** Line 36: the ridership loader's line key. *)
Definition stc_linea_clean (x : string) : string :=
  unidecode (strip (lower x)).

(** Line 46: the geometry loader's line key. *)
Definition kml_linea_clean (x : string) : string :=
  "linea " ++ lower (lstrip_zeros x).

(** ** Dates and [strftime("%Y-%m")] *)

Record date := { year : N; month : N; day : N }.

(** What [datetime.date] and a pandas timestamp can hold. *)
Definition valid_date (d : date) : bool :=
  ((1 <=? year d) && (year d <=? 9999) && (1 <=? month d) && (month d <=? 12)
   && (1 <=? day d) && (day d <=? 31))%N.

Definition digit (n : N) : ascii := ascii_of_N (48 + n mod 10).

(** [%m]: two digits, zero padded. *)
Definition zero_pad2 (n : N) : string :=
  String (digit (n / 10)) (String (digit n) "").

(** [%Y], as the C library of Linux writes it for [strftime]: the decimal
    numeral of the year without padding ([999] for the year 999).  From the
    year 1000 on these are the four digits that every platform writes. *)
Definition year_numeral (n : N) : string := NilZero.string_of_uint (N.to_uint n).

Definition strftime_ym (d : date) : string :=
  year_numeral (year d) ++ "-" ++ zero_pad2 (month d).

(** The dates whose year has four digits; every pandas timestamp is one
    (its years run from 1677 to 2262). *)
Definition four_digits (d : date) : bool :=
  valid_date d && (1000 <=? year d)%N.

(** ** Sorting, grouping and sums, as pandas does them *)

Module Pandas.

Section Sorting.
Variable A : Type.
Variable le : A -> A -> bool.

(** [x] goes before the first element that is not strictly before it, so
    that equal elements keep the order of the input (a stable sort). *)
Fixpoint insert_sorted (x : A) (l : list A) : list A :=
  match l with
  | [] => [x]
  | y :: l' => if le x y then x :: l else y :: insert_sorted x l'
  end.

Definition sort_by (l : list A) : list A := fold_right insert_sorted [] l.

End Sorting.

Arguments insert_sorted {A} le x l.
Arguments sort_by {A} le l.

(** The distinct values of a key column, ascending: the groups of
    [groupby] and the labels of [pivot]. *)
Definition unique_sorted (l : list string) : list string :=
  sort_by String.leb (nodup string_dec l).

Definition sum_Z (l : list Z) : Z := fold_right Z.add 0%Z l.

(** [Series.max()]: NaN ([None]) on an empty series. *)
Definition max_Z (l : list Z) : option Z :=
  match l with
  | [] => None
  | x :: l' => Some (fold_left Z.max l' x)
  end.

(** [GroupBy.first]: the first value of the group that is not null. *)
Fixpoint first_valid {A : Type} (l : list (option A)) : option A :=
  match l with
  | [] => None
  | Some x :: _ => Some x
  | None :: l' => first_valid l'
  end.

(** A cell that is NaN counts for 0 in [sum(axis=1)] (skipna). *)
Definition nan_to_zero (x : option Z) : Z :=
  match x with
  | Some v => v
  | None => 0%Z
  end.

Fixpoint has_duplicate {A : Type} (eqb : A -> A -> bool) (l : list A) : bool :=
  match l with
  | [] => false
  | x :: l' => existsb (eqb x) l' || has_duplicate eqb l'
  end.

End Pandas.

Import Pandas.

(** ** The tables of the pipeline *)

(** A row of [afluenciastc_simple_02_2024.csv] (the columns the program
    reads).  A station or line cell that is empty or NA in the file is NaN in
    the frame of [read_csv]: [None] here. *)
Module Csv.
Record row := {
  fecha : string;
  estacion : option string;
  linea : option string;
  afluencia : Z }.
End Csv.

(** A row of [df_stc], the result of [load_and_preprocess_data]. *)
Module Stc.
Record row := {
  fecha : date;
  estacion : string;
  linea : string;
  afluencia : Z;
  year_month : string;
  estacion_clean : string;
  linea_clean : string }.
End Stc.

(** A point feature of [stc.kml]: its coordinates and the two cells that
    [extract_info_from_html] reads from its description (the markup itself
    is parsed by BeautifulSoup and is not modelled). *)
Module Kml.
Record feature := { y : Q; x : Q; nombre : string; linea : string }.
End Kml.

(** A row of [stations_info], the result of [load_and_process_kml_data]. *)
Module Station.
Record row := {
  lat : Q;
  lon : Q;
  estacion : string;
  linea : string;
  estacion_clean : string;
  linea_clean : string }.
End Station.

(** A row of [df_month_estacion_stc] after the left merge; [index] is the
    column that [reset_index()] adds in [filter_data] ([None] before). *)
Module Month.
Record row := {
  index : option nat;
  year_month : string;
  linea_clean : string;
  estacion_clean : string;
  afluencia : Z;
  lat : option Q;
  lon : option Q }.
End Month.

(** A row of [stations_aggregate]. *)
Module Aggregate.
Record row := {
  estacion_clean : string;
  afluencia : Z;
  lat : option Q;
  lon : option Q;
  size : option Q }.
End Aggregate.

(** ** The loaders ([main.py], lines 31-47) *)

Section Loaders.

(** [pd.to_datetime] on one cell; [None] when the cell does not parse, which
    raises. *)
Variable to_datetime : string -> option date.

(** The columns added to a row whose date is [d] and whose station and
    line cells hold [estacion] and [linea] (lines 34-36). *)
Definition preprocess_row (d : date) (estacion linea : string) (afluencia : Z)
  : Stc.row :=
  {| Stc.fecha := d;
     Stc.estacion := estacion;
     Stc.linea := linea;
     Stc.afluencia := afluencia;
     Stc.year_month := strftime_ym d;
     Stc.estacion_clean := clean_station_name estacion;
     Stc.linea_clean := stc_linea_clean linea |}.

(** The loader raises ([None]) when a date does not parse (line 33) and
    when a station or line cell is NaN, which has no [lower()] (lines 35
    and 36). *)
Fixpoint load_and_preprocess_data (csv : list Csv.row) : option (list Stc.row) :=
  match csv with
  | [] => Some []
  | r :: rest =>
      match to_datetime (Csv.fecha r), Csv.estacion r, Csv.linea r,
            load_and_preprocess_data rest with
      | Some d, Some estacion, Some linea, Some df_stc =>
          Some (preprocess_row d estacion linea (Csv.afluencia r) :: df_stc)
      | _, _, _, _ => None
      end
  end.

End Loaders.

Definition process_feature (f : Kml.feature) : Station.row :=
  {| Station.lat := Kml.y f;
     Station.lon := Kml.x f;
     Station.estacion := Kml.nombre f;
     Station.linea := Kml.linea f;
     Station.estacion_clean := clean_station_name (Kml.nombre f);
     Station.linea_clean := kml_linea_clean (Kml.linea f) |}.

Definition load_and_process_kml_data (gdf : list Kml.feature) : list Station.row :=
  map process_feature gdf.

(** ** Aggregation and join ([main.py], lines 103-104) *)

Definition group_key : Type := string * string * string.

Definition group_key_dec (a b : group_key) : {a = b} + {a <> b}.
Proof. repeat decide equality. Defined.

(** Tuples of strings compare component by component. *)
Definition group_key_leb (a b : group_key) : bool :=
  let '(a1, a2, a3) := a in
  let '(b1, b2, b3) := b in
  match String.compare a1 b1 with
  | Lt => true
  | Gt => false
  | Eq =>
      match String.compare a2 b2 with
      | Lt => true
      | Gt => false
      | Eq => String.leb a3 b3
      end
  end.

Definition stc_key (r : Stc.row) : group_key :=
  (Stc.year_month r, Stc.linea_clean r, Stc.estacion_clean r).

Definition group_total (df_stc : list Stc.row) (k : group_key) : Z :=
  sum_Z (map Stc.afluencia
           (filter (fun r => if group_key_dec (stc_key r) k then true else false) df_stc)).

(** [df_stc.groupby(['year_month', 'linea_clean', 'estacion_clean'])
    ['afluencia'].sum().reset_index()]: one row per distinct key, keys
    ascending. *)
Definition groupby_month (df_stc : list Stc.row) : list (group_key * Z) :=
  map (fun k => (k, group_total df_stc k))
      (sort_by group_key_leb (nodup group_key_dec (map stc_key df_stc))).

Definition joins (l : group_key * Z) (s : Station.row) : bool :=
  let '(_, linea, estacion) := fst l in
  String.eqb (Station.estacion_clean s) estacion
  && String.eqb (Station.linea_clean s) linea.

Definition joined_row (l : group_key * Z) (coords : option (Q * Q)) : Month.row :=
  let '(ym, linea, estacion) := fst l in
  {| Month.index := None;
     Month.year_month := ym;
     Month.linea_clean := linea;
     Month.estacion_clean := estacion;
     Month.afluencia := snd l;
     Month.lat := option_map fst coords;
     Month.lon := option_map snd coords |}.

(** [merge(..., on=['estacion_clean', 'linea_clean'], how='left')]: the
    left rows in their order, each once per matching right row, or once with
    null coordinates when none matches. *)
Definition merge_row (right : list Station.row) (l : group_key * Z)
  : list Month.row :=
  match filter (joins l) right with
  | [] => [joined_row l None]
  | matches =>
      map (fun s => joined_row l (Some (Station.lat s, Station.lon s))) matches
  end.

Definition merge_left (left : list (group_key * Z)) (right : list Station.row)
  : list Month.row :=
  flat_map (merge_row right) left.

(** ** The filter ([main.py], lines 49-56) *)

Definition in_range (linea start_date_str end_date_str : string) (r : Month.row) : bool :=
  String.eqb (Month.linea_clean r) (lower linea)
  && String.leb start_date_str (Month.year_month r)
  && String.leb (Month.year_month r) end_date_str.

Definition with_index (i : nat) (r : Month.row) : Month.row :=
  {| Month.index := Some i;
     Month.year_month := Month.year_month r;
     Month.linea_clean := Month.linea_clean r;
     Month.estacion_clean := Month.estacion_clean r;
     Month.afluencia := Month.afluencia r;
     Month.lat := Month.lat r;
     Month.lon := Month.lon r |}.

(** The boolean mask keeps the selected rows with their labels; on the
    default index the label of a row is its position. *)
Fixpoint select_rows (mask : Month.row -> bool) (i : nat) (df : list Month.row)
  : list (nat * Month.row) :=
  match df with
  | [] => []
  | r :: df' =>
      if mask r then (i, r) :: select_rows mask (S i) df'
      else select_rows mask (S i) df'
  end.

(** [reset_index()] turns the old labels into the column [index]. *)
Definition reset_index (rows : list (nat * Month.row)) : list Month.row :=
  map (fun ir => with_index (fst ir) (snd ir)) rows.

Definition filter_data (df : list Month.row) (linea : string)
  (start_date end_date : date) : list Month.row :=
  let start_date_str := strftime_ym start_date in
  let end_date_str := strftime_ym end_date in
  reset_index (select_rows (in_range linea start_date_str end_date_str) 0%nat df).

(** ** The chart builder ([main.py], lines 58-64) *)

(** A frame indexed by [index] with one column of cells per label of
    [columns]; [values] holds its rows. *)
Record frame := {
  index : list string;
  columns : list string;
  values : list (list (option Z)) }.

Definition station_total (df : list Month.row) (c : string) : Z :=
  sum_Z (map Month.afluencia
           (filter (fun r => String.eqb (Month.estacion_clean r) c) df)).

(** [groupby('estacion_clean')['afluencia'].sum()]: stations ascending. *)
Definition total_per_station (df : list Month.row) : list (string * Z) :=
  map (fun c => (c, station_total df c))
      (unique_sorted (map Month.estacion_clean df)).

(** [sort_values(ascending=False)]: equal totals keep their order. *)
Definition sort_descending {A : Type} (l : list (A * Z)) : list (A * Z) :=
  sort_by (fun a b => (snd b <=? snd a)%Z) l.

Definition pivot_key (r : Month.row) : string * string :=
  (Month.year_month r, Month.estacion_clean r).

Definition pivot_key_eqb (a b : string * string) : bool :=
  String.eqb (fst a) (fst b) && String.eqb (snd a) (snd b).

Definition cell (df : list Month.row) (i c : string) : option Z :=
  option_map Month.afluencia
    (find (fun r => pivot_key_eqb (pivot_key r) (i, c)) df).

(** [df.pivot(index='year_month', columns='estacion_clean',
    values='afluencia')]; two rows with the same labels raise
    [ValueError] ([None]). *)
Definition pivot (df : list Month.row) : option frame :=
  if has_duplicate pivot_key_eqb (map pivot_key df) then None
  else
    let idx := unique_sorted (map Month.year_month df) in
    let cols := unique_sorted (map Month.estacion_clean df) in
    Some {| index := idx;
            columns := cols;
            values := map (fun i => map (cell df i) cols) idx |}.

Fixpoint position (c : string) (l : list string) : nat :=
  match l with
  | [] => 0%nat
  | x :: l' => if String.eqb c x then 0%nat else S (position c l')
  end.

Definition has_column (c : string) (t : frame) : bool :=
  existsb (String.eqb c) (columns t).

Definition column (c : string) (t : frame) : list (option Z) :=
  map (fun row => nth (position c (columns t)) row None) (values t).

(** [t[names]]; a label that is no column raises [KeyError] ([None]). *)
Definition get_columns (names : list string) (t : frame) : option frame :=
  if forallb (fun c => has_column c t) names
  then Some {| index := index t;
               columns := names;
               values :=
                 map (fun row => map (fun c => nth (position c (columns t)) row None) names)
                     (values t) |}
  else None.

Fixpoint update {A : Type} (n : nat) (v : A) (l : list A) : list A :=
  match l, n with
  | [], _ => []
  | _ :: l', O => v :: l'
  | x :: l', S k => x :: update k v l'
  end.

(** [t[c] = series] for a series on the same index: the column is
    overwritten if it exists and added at the right otherwise. *)
Definition set_column (c : string) (series : list (option Z)) (t : frame) : frame :=
  {| index := index t;
     columns := if has_column c t then columns t else columns t ++ [c];
     values :=
       map (fun rv =>
              if has_column c t
              then update (position c (columns t)) (snd rv) (fst rv)
              else fst rv ++ [snd rv])
           (combine (values t) series) |}.

(** [t.sum(axis=1)] *)
Definition sum_rows (t : frame) : list Z :=
  map (fun row => sum_Z (map nan_to_zero row)) (values t).

(** The frame handed to [st.line_chart]. *)
Definition create_line_chart (filtered_df_stations : list Month.row) : option frame :=
  let total_afluencia_per_station :=
    sort_descending (total_per_station filtered_df_stations) in
  let top_5_stations := map fst (firstn 5 total_afluencia_per_station) in
  match pivot filtered_df_stations with
  | None => None
  | Some pivoted_df =>
      match get_columns top_5_stations pivoted_df with
      | None => None
      | Some pivoted_df_top_5 =>
          Some (set_column "Total" (map Some (sum_rows pivoted_df)) pivoted_df_top_5)
      end
  end.

(** ** The map and the table ([main.py], lines 66-85) *)

(** [afluencia / afluencia.max() * 1000]; [None] stands for the values
    that are not finite (a maximum of zero). *)
Definition marker_size (max_afluencia : option Z) (afluencia : Z) : option Q :=
  match max_afluencia with
  | None => None
  | Some m =>
      if (m =? 0)%Z then None
      else Some (inject_Z afluencia / inject_Z m * inject_Z 1000)%Q
  end.

Definition aggregate_station (df : list Month.row) (c : string)
  : string * Z * option Q * option Q :=
  let group := filter (fun r => String.eqb (Month.estacion_clean r) c) df in
  (c, sum_Z (map Month.afluencia group),
   first_valid (map Month.lat group), first_valid (map Month.lon group)).

(** [groupby('estacion_clean').agg({'afluencia': 'sum', 'lat': 'first',
    'lon': 'first'}).reset_index()] followed by the [size] column. *)
Definition stations_aggregate (df : list Month.row) : list Aggregate.row :=
  let groups :=
    map (aggregate_station df) (unique_sorted (map Month.estacion_clean df)) in
  let max_afluencia := max_Z (map (fun g => snd (fst (fst g))) groups) in
  map (fun g =>
         let '(c, a, la, lo) := g in
         {| Aggregate.estacion_clean := c;
            Aggregate.afluencia := a;
            Aggregate.lat := la;
            Aggregate.lon := lo;
            Aggregate.size := marker_size max_afluencia a |})
      groups.

Definition pad3 (n : N) : string :=
  String (digit (n / 100)) (String (digit (n / 10)) (String (digit n) "")).

Fixpoint thousands (fuel : nat) (n : N) : string :=
  match fuel with
  | O => NilZero.string_of_uint (N.to_uint n)
  | S fuel' =>
      if n <? 1000 then NilZero.string_of_uint (N.to_uint n)
      else thousands fuel' (n / 1000) ++ "," ++ pad3 (n mod 1000)
  end.

(** [f"{int(x):,}"] *)
Definition format_thousands (x : Z) : string :=
  (if (x <? 0)%Z then "-" else "")
  ++ thousands (N.size_nat (Z.abs_N x)) (Z.abs_N x).

(** What [display_map_and_table] hands to the display layer: the frame
    written by [st.write], the frame drawn by [st.map] (with the columns
    [lat], [lon] and [size]), and the rows of [st.table]. *)
Record map_and_table := {
  st_write : list Aggregate.row;
  st_map : list Aggregate.row;
  st_table : list (string * string) }.

Definition display_map_and_table (filtered_df_stations : list Month.row)
  : map_and_table :=
  let aggregate := stations_aggregate filtered_df_stations in
  let station_afluencia_table :=
    sort_descending
      (map (fun r => (Aggregate.estacion_clean r, Aggregate.afluencia r)) aggregate) in
  {| st_write := aggregate;
     st_map := aggregate;
     st_table :=
       map (fun ea => (fst ea, format_thousands (snd ea))) station_afluencia_table |}.

(** ** The page ([main.py], lines 87-109) *)

(** The exceptions that stop a run of [main]: [to_datetime] on a cell that
    is no date (line 33), [lower()] on a NaN cell (lines 35-36) and on the
    [None] that the selector returns when it has no option (line 96), the
    duplicate entries of [pivot] (line 60), and the null coordinates that
    [st.map] refuses (line 78). *)
Inductive error :=
| DateParseError
| NullNameCell
| NoLineSelected
| PivotDuplicateEntries
| MapNullCoordinates.

Record page := { line_chart : frame; map_table : map_and_table }.

(** [st.selectbox(label, options)]: the option at the position the user
    chose (the first one until they choose), [None] when there is no option
    there, as when there is none at all. *)
Definition selectbox (options : list string) (choice : nat) : option string :=
  nth_error options choice.

(** [st.map] raises when the latitude or longitude column holds a null. *)
Definition has_coordinates (a : Aggregate.row) : bool :=
  match Aggregate.lat a, Aggregate.lon a with
  | Some _, Some _ => true
  | _, _ => false
  end.

Section Main.
Variable to_datetime : string -> option date.

(** [df_month_estacion_stc], lines 103-104. *)
Definition month_estacion (df_stc : list Stc.row) (stations_info : list Station.row)
  : list Month.row :=
  merge_left (groupby_month df_stc) stations_info.

(** The choices of the line selector: [df_stc['linea_clean'].unique()],
    in order of first appearance. *)
Definition lineas_stc (df_stc : list Stc.row) : list string :=
  rev (nodup string_dec (rev (map Stc.linea_clean df_stc))).

(** Which exception the loader raised: the dates are converted first. *)
Definition load_error (csv : list Csv.row) : error :=
  if forallb (fun r => match to_datetime (Csv.fecha r) with
                       | Some _ => true
                       | None => false
                       end) csv
  then NullNameCell else DateParseError.

(** One pass of [main] for the contents of the two files, the position
    chosen in the line selector and the values of the two date pickers
    (which are bounded by the first and last date of the chosen line,
    lines 96-101).  The page is what has been displayed when the run
    reaches its end. *)
Definition main (csv : list Csv.row) (gdf : list Kml.feature)
  (choice : nat) (start_date_stc end_date_stc : date)
  : error + page :=
  match load_and_preprocess_data to_datetime csv with
  | None => inl (load_error csv)
  | Some df_stc =>
      let stations_info := load_and_process_kml_data gdf in
      match selectbox (lineas_stc df_stc) choice with
      | None => inl NoLineSelected
      | Some selected_linea_stc =>
          let df_month_estacion_stc := month_estacion df_stc stations_info in
          let filtered_df_stations_stc :=
            filter_data df_month_estacion_stc selected_linea_stc
                        start_date_stc end_date_stc in
          match create_line_chart filtered_df_stations_stc with
          | None => inl PivotDuplicateEntries
          | Some chart =>
              let shown := display_map_and_table filtered_df_stations_stc in
              if forallb has_coordinates (st_map shown)
              then inr {| line_chart := chart; map_table := shown |}
              else inl MapNullCoordinates
          end
      end
  end.

End Main.

(** ** ISO 8601 dates

    The dates of the ridership file are written [YYYY-MM-DD]; this is
    [pd.to_datetime] on such cells (and on [YYYY-MM], the first of the
    month), used to run the page on concrete rows. *)

Definition digit_value (c : ascii) : option N :=
  let n := code c in
  if (48 <=? n) && (n <=? 57) then Some (n - 48) else None.

Fixpoint number_from (acc : N) (s : string) : option N :=
  match s with
  | "" => Some acc
  | String c s' =>
      match digit_value c with
      | Some v => number_from (10 * acc + v) s'
      | None => None
      end
  end.

Definition checked_date (y m d : option N) : option date :=
  match y, m, d with
  | Some y, Some m, Some d =>
      let t := {| year := y; month := m; day := d |} in
      if valid_date t then Some t else None
  | _, _, _ => None
  end.

Definition iso_to_datetime (s : string) : option date :=
  let y := number_from 0 (substring 0 4 s) in
  let m := number_from 0 (substring 5 2 s) in
  match String.length s, get 4 s with
  | 7%nat, Some "-"%char => checked_date y m (Some 1)
  | 10%nat, Some "-"%char =>
      match get 7 s with
      | Some "-"%char => checked_date y m (number_from 0 (substring 8 2 s))
      | _ => None
      end
  | _, _ => None
  end.

(** ** Notions used to state the properties *)

(** The columns of a row other than [index]. *)
Definition data (r : Month.row)
  : string * string * string * Z * option Q * option Q :=
  (Month.year_month r, Month.linea_clean r, Month.estacion_clean r,
   Month.afluencia r, Month.lat r, Month.lon r).


(** The month of a date as a number, for the chronological order. *)
Definition month_number (d : date) : N := 100 * year d + month d.

(** The first of the month of a date. *)
Definition truncate_month (d : date) : date :=
  {| year := year d; month := month d; day := 1 |}.

(** The ridership of all the rows of a month. *)
Definition bucket_total (df : list Month.row) (ym : string) : Z :=
  sum_Z (map Month.afluencia
           (filter (fun r => String.eqb (Month.year_month r) ym) df)).

(** The rows of a station, the stations of a frame, and the largest
    ridership of a station. *)
Definition station_rows (df : list Month.row) (c : string) : list Month.row :=
  filter (fun r => String.eqb (Month.estacion_clean r) c) df.

Definition stations_of (df : list Month.row) : list string :=
  unique_sorted (map Month.estacion_clean df).

Definition max_afluencia (df : list Month.row) : option Z :=
  max_Z (map (station_total df) (stations_of df)).

(** The join key of a geometry row, and the grouping key of a joined row. *)
Definition station_key (s : Station.row) : string * string :=
  (Station.estacion_clean s, Station.linea_clean s).

Definition month_key (r : Month.row) : group_key :=
  (Month.year_month r, Month.linea_clean r, Month.estacion_clean r).

(** Names for the state of a string after [strip()]: its first and its
    last character, if any, are not in the stripped set. *)
Definition head_ok (p : ascii -> bool) (s : string) : bool :=
  match head_char s with
  | Some c => negb (p c)
  | None => true
  end.

Definition last_ok (p : ascii -> bool) (s : string) : bool :=
  match last_char s with
  | Some c => negb (p c)
  | None => true
  end.

Definition trimmed (s : string) : bool := head_ok isspace s && last_ok isspace s.

Definition lowered_char (c : ascii) : bool := Ascii.eqb (lower_char c) c.

(** A key in normal form: ASCII, lower case, no surrounding whitespace. *)
Definition normal_key (s : string) : bool :=
  is_ascii s && all_chars lowered_char s && trimmed s.

(** The characters on which lower-casing, stripping and transliterating
    give a string in normal form: the transliteration of the lower-cased
    character is lower case and, unless the character is a space, it is not
    empty and has no space at its ends.  These are all of ASCII and the
    Latin-1 letters and signs other than the controls U+0080-U+009F (apart
    from U+0085), the soft hyphen, the fractions and the five signs that
    are written with capitals. *)
Definition solid (u : string) : bool :=
  negb (String.eqb u "") && head_ok isspace u && last_ok isspace u.

Definition plain_char (c : ascii) : bool :=
  let u := unidecode_char (lower_char c) in
  all_chars lowered_char u && (isspace c || solid u).

Definition plain (s : string) : bool := all_chars plain_char s.

(** The same condition on a character that is already lower case. *)
Definition translit_ok (d : ascii) : bool :=
  let u := unidecode_char d in
  all_chars lowered_char u && (isspace d || solid u).

(** The four digits of a number below 10000. *)
Definition zero_pad4 (n : N) : string :=
  String (digit (n / 1000)) (String (digit (n / 100))
    (String (digit (n / 10)) (String (digit n) ""))).

(** Some non-empty end of [a] is a beginning of [b]. *)
Fixpoint border (a b : string) : bool :=
  match a with
  | "" => false
  | String _ a' => prefix a b || border a' b
  end.

(** No occurrence of [p] can share a character with, or lie around, an
    occurrence of [new]. *)
Definition no_overlap (new p : string) : bool :=
  negb (border new p) && negb (border p new)
  && negb (contains p new) && negb (contains new p).

(** One step of the loop of [clean_station_name]. *)
Definition replace_if_present (rule : string * string) (cleaned : string) : string :=
  if contains (fst rule) cleaned then replace (fst rule) (snd rule) cleaned
  else cleaned.

(** No rule of the table can create an occurrence of [p]. *)
Definition rules_avoid (p : string) (table : list (string * string)) : bool :=
  forallb (fun rule => negb (String.eqb (fst rule) "") && no_overlap (snd rule) p) table.

(** The replacements of the table are in normal form themselves. *)
Definition rules_normal (table : list (string * string)) : bool :=
  forallb (fun rule =>
             negb (String.eqb (fst rule) "") && is_ascii (snd rule)
             && all_chars lowered_char (snd rule) && solid (snd rule))
          table.

(** The alias whose replacement is the beginning of the alias itself. *)
Definition reentrant_alias : string := "ninos heroes/poder judicial cdmx".

(** ** Example data *)

Definition df_example : list Month.row :=
  [ {| Month.index := None; Month.year_month := "2023-12"; Month.linea_clean := "linea 1";
       Month.estacion_clean := "balderas"; Month.afluencia := 7;
       Month.lat := None; Month.lon := None |};
    {| Month.index := None; Month.year_month := "2024-01"; Month.linea_clean := "linea 2";
       Month.estacion_clean := "zocalo"; Month.afluencia := 9;
       Month.lat := None; Month.lon := None |};
    {| Month.index := None; Month.year_month := "2024-02"; Month.linea_clean := "linea 1";
       Month.estacion_clean := "balderas"; Month.afluencia := 11;
       Month.lat := None; Month.lon := None |} ].

Definition month_row (ym linea estacion : string) (a : Z) (coords : option (Q * Q))
  : Month.row :=
  {| Month.index := None; Month.year_month := ym; Month.linea_clean := linea;
     Month.estacion_clean := estacion; Month.afluencia := a;
     Month.lat := option_map fst coords; Month.lon := option_map snd coords |}.

(** Six stations of one line in one month, one of them also in the next. *)
Definition six_stations : list Month.row :=
  [ month_row "2024-01" "linea 1" "balderas" 60 None;
    month_row "2024-01" "linea 1" "candelaria" 50 None;
    month_row "2024-01" "linea 1" "merced" 40 None;
    month_row "2024-01" "linea 1" "observatorio" 30 None;
    month_row "2024-01" "linea 1" "pantitlan" 20 None;
    month_row "2024-01" "linea 1" "zaragoza" 1 None;
    month_row "2024-02" "linea 1" "zaragoza" 5 None ].

(** A station with coordinates and a busier one whose join found none. *)
Definition with_join_miss : list Month.row :=
  [ month_row "2024-01" "linea 1" "balderas" 10 (Some (19.4274, -99.1490)%Q);
    month_row "2024-01" "linea 1" "salto del agua" 90 None ].

(** One ridership row, and a geometry file with two points for its
    station. *)
Definition one_row_csv : list Csv.row :=
  [ {| Csv.fecha := "2024-01-15"; Csv.estacion := Some "Balderas"; Csv.linea := Some "Linea 1";
       Csv.afluencia := 100 |} ].

Definition doubled_gdf : list Kml.feature :=
  [ {| Kml.y := 19.4274%Q; Kml.x := (-99.1490)%Q; Kml.nombre := "Balderas";
       Kml.linea := "01" |};
    {| Kml.y := 19.4275%Q; Kml.x := (-99.1491)%Q; Kml.nombre := "BALDERAS";
       Kml.linea := "1" |} ].


(** Case analysis on the 256 characters. *)
Ltac each_char c :=
  destruct c as [[] [] [] [] [] [] [] []]; vm_compute; try reflexivity; try congruence.

From Stdlib Require Import NArith Nnat.

(** ** The bounds of the date pickers ([main.py], lines 96-98) *)

(** [df_stc[(df_stc['linea_clean'] == unidecode.unidecode(
    selected_linea_stc.lower().strip())) & (df_stc['afluencia'] > 0)]] *)
Definition df_filtered_by_line (df_stc : list Stc.row) (selected_linea_stc : string)
  : list Stc.row :=
  filter (fun r =>
            String.eqb (Stc.linea_clean r)
                       (unidecode (strip (lower selected_linea_stc)))
            && (0 <? Stc.afluencia r)%Z)
         df_stc.

(** Timestamps at midnight compare by year, month and day. *)
Definition date_leb (a b : date) : bool :=
  match year a ?= year b with
  | Lt => true
  | Gt => false
  | Eq =>
      match month a ?= month b with
      | Lt => true
      | Gt => false
      | Eq => day a <=? day b
      end
  end.

Definition date_min (a b : date) : date := if date_leb a b then a else b.

Definition date_max (a b : date) : date := if date_leb a b then b else a.

(** [df['fecha'].min()] and [.max()]: NaT ([None]) on an empty frame. *)
Definition min_date (df : list Stc.row) : option date :=
  match map Stc.fecha df with
  | [] => None
  | d :: l => Some (fold_left date_min l d)
  end.

Definition max_date (df : list Stc.row) : option date :=
  match map Stc.fecha df with
  | [] => None
  | d :: l => Some (fold_left date_max l d)
  end.

(** ** Further notions used to state the properties *)

(** A list of totals in descending order. *)
Fixpoint descending (l : list Z) : Prop :=
  match l with
  | [] => True
  | x :: l' => (forall y, In y l' -> (y <= x)%Z) /\ descending l'
  end.

(** Reading back a number written with thousands separators: the sign,
    then the digits, the commas skipped. *)
Fixpoint read_digits (acc : N) (s : string) : option N :=
  match s with
  | "" => Some acc
  | String c s' =>
      if Ascii.eqb c "," then read_digits acc s'
      else
        match digit_value c with
        | Some v => read_digits (10 * acc + v) s'
        | None => None
        end
  end.

Definition read_thousands (s : string) : option Z :=
  match s with
  | String "-" s' => option_map (fun n => (- Z.of_N n)%Z) (read_digits 0 s')
  | _ => option_map Z.of_N (read_digits 0 s)
  end.

(** Positions in increasing order. *)
Fixpoint increasing (l : list nat) : Prop :=
  match l with
  | [] => True
  | i :: l' => (forall j, In j l' -> (i < j)%nat) /\ increasing l'
  end.

(** The stations that the chart displays: [top_5_stations] of
    [create_line_chart]. *)
Definition top_5_stations (df : list Month.row) : list string :=
  map fst (firstn 5 (sort_descending (total_per_station df))).

(** A bound on the numbers of at most [k] bits. *)
Fixpoint pow2 (k : nat) : N :=
  match k with
  | O => 1
  | S k' => 2 * pow2 k'
  end.

(** The record that the loader makes of the row of [one_row_csv]. *)
Definition one_row_record : Stc.row :=
  preprocess_row {| year := 2024; month := 1; day := 15 |} "Balderas" "Linea 1" 100.

(** Labels in strictly ascending order. *)
Fixpoint ascending (l : list string) : Prop :=
  match l with
  | [] => True
  | x :: l' => (forall y, In y l' -> String.ltb x y = true) /\ ascending l'
  end.

(** The ridership records that a target and two dates select: those of
    the line, in the months of the range. *)
Definition selected_record (linea : string) (start_date end_date : date)
  (r : Stc.row) : bool :=
  String.eqb (Stc.linea_clean r) (lower linea)
  && String.leb (strftime_ym start_date) (Stc.year_month r)
  && String.leb (Stc.year_month r) (strftime_ym end_date).

(** The same test on a grouping key. *)
Definition selected_key (linea : string) (start_date end_date : date)
  (k : group_key) : bool :=
  let '(ym, linea_clean, _) := k in
  String.eqb linea_clean (lower linea)
  && String.leb (strftime_ym start_date) ym
  && String.leb ym (strftime_ym end_date).

(** * Properties *)

(** ** The model on examples *)

Example clean_ninos :
  clean_station_name ("  Ni" ++ chr 241 ++ "os H" ++ chr 233 ++ "roes/Poder Judicial CDMX ")
  = "ninos heroes".
Proof. vm_compute. reflexivity. Qed.

Example clean_lazaro :
  clean_station_name ("L" ++ chr 225 ++ "zaro C" ++ chr 225 ++ "rdenas") = "l. cardenas".
Proof. vm_compute. reflexivity. Qed.

Example kml_key_01 : kml_linea_clean "01" = "linea 1".
Proof. reflexivity. Qed.

Example stc_key_linea_1 : stc_linea_clean (" L" ++ chr 237 ++ "nea 1") = "linea 1".
Proof. vm_compute. reflexivity. Qed.

Example strftime_ym_feb : strftime_ym {| year := 2024; month := 2; day := 29 |} = "2024-02".
Proof. reflexivity. Qed.

Example format_thousands_ex :
  format_thousands 1234567 = "1,234,567" /\ format_thousands 1005 = "1,005"
  /\ format_thousands 300 = "300" /\ format_thousands 0 = "0"
  /\ format_thousands (-45000) = "-45,000".
Proof. repeat split; reflexivity. Qed.

Example iso_to_datetime_ex :
  iso_to_datetime "2024-02-29" = Some {| year := 2024; month := 2; day := 29 |}
  /\ iso_to_datetime "2024-01" = Some {| year := 2024; month := 1; day := 1 |}
  /\ iso_to_datetime "2024-13-01" = None
  /\ iso_to_datetime "29/02/2024" = None.
Proof. repeat split; reflexivity. Qed.

(** ** Order on strings *)

Lemma compare_refl (s : string) : String.compare s s = Eq.
Proof.
  induction s as [|c s IH]; simpl; [reflexivity|].
  unfold Ascii.compare. rewrite N.compare_refl. exact IH.
Qed.

Lemma compare_not_Gt_trans (a b c : string) :
  String.compare a b <> Gt -> String.compare b c <> Gt -> String.compare a c <> Gt.
Proof.
  revert b c. induction a as [|x a IH]; intros [|y b] [|z c]; simpl; try congruence.
  unfold Ascii.compare.
  destruct (N.compare_spec (N_of_ascii x) (N_of_ascii y)) as [Hxy|Hxy|Hxy];
    destruct (N.compare_spec (N_of_ascii y) (N_of_ascii z)) as [Hyz|Hyz|Hyz];
    destruct (N.compare_spec (N_of_ascii x) (N_of_ascii z)) as [Hxz|Hxz|Hxz];
    try congruence; try lia.
  apply IH.
Qed.

Lemma leb_trans (a b c : string) :
  String.leb a b = true -> String.leb b c = true -> String.leb a c = true.
Proof.
  unfold String.leb. intros Hab Hbc.
  pose proof (compare_not_Gt_trans a b c) as H.
  destruct (String.compare a b), (String.compare b c), (String.compare a c);
    try discriminate; try reflexivity; exfalso; apply H; congruence.
Qed.

Lemma ltb_leb_false (a b : string) : String.ltb a b = true -> String.leb b a = false.
Proof.
  unfold String.ltb, String.leb. rewrite (String.compare_antisym b a).
  destruct (String.compare a b); simpl; congruence.
Qed.

(** ** [strftime] and the order of the months *)

Lemma code_digit (n : N) : N_of_ascii (digit n) = 48 + n mod 10.
Proof.
  unfold digit. apply N_ascii_embedding.
  pose proof (N.mod_lt n 10). lia.
Qed.

Lemma compare_step (a b : N) :
  N.compare a b
  = match N.compare (a / 10) (b / 10) with
    | Eq => N.compare (a mod 10) (b mod 10)
    | c => c
    end.
Proof.
  destruct (N.compare_spec (a / 10) (b / 10));
    [destruct (N.compare_spec (a mod 10) (b mod 10))|..];
    first [apply N.compare_eq_iff | apply N.compare_lt_iff | apply N.compare_gt_iff];
    zify; Z.to_euclidean_division_equations; lia.
Qed.

Lemma compare_digit (a b : N) :
  Ascii.compare (digit a) (digit b) = N.compare (a mod 10) (b mod 10).
Proof.
  unfold Ascii.compare. rewrite !code_digit.
  destruct (N.compare_spec (a mod 10) (b mod 10));
    first [apply N.compare_eq_iff | apply N.compare_lt_iff | apply N.compare_gt_iff];
    lia.
Qed.

Lemma zero_pad2_compare (a b : N) (s t : string) :
  a < 100 -> b < 100 ->
  String.compare (zero_pad2 a ++ s) (zero_pad2 b ++ t)
  = match N.compare a b with
    | Eq => String.compare s t
    | c => c
    end.
Proof.
  intros Ha Hb. unfold zero_pad2. cbn [append String.compare].
  rewrite !compare_digit, (compare_step a b).
  rewrite (N.mod_small (a / 10)), (N.mod_small (b / 10))
    by (apply N.Div0.div_lt_upper_bound; lia).
  destruct (N.compare (a / 10) (b / 10)); [|reflexivity..].
  destruct (N.compare (a mod 10) (b mod 10)); reflexivity.
Qed.

Lemma zero_pad4_compare (a b : N) (s t : string) :
  a < 10000 -> b < 10000 ->
  String.compare (zero_pad4 a ++ s) (zero_pad4 b ++ t)
  = match N.compare a b with
    | Eq => String.compare s t
    | c => c
    end.
Proof.
  intros Ha Hb. unfold zero_pad4. cbn [append String.compare].
  rewrite !compare_digit.
  rewrite (compare_step a b), (compare_step (a / 10) (b / 10)),
    (compare_step (a / 10 / 10) (b / 10 / 10)).
  rewrite !N.Div0.div_div. change (10 * 10) with 100. change (10 * 100) with 1000.
  rewrite (N.mod_small (a / 1000)), (N.mod_small (b / 1000))
    by (apply N.Div0.div_lt_upper_bound; lia).
  destruct (N.compare (a / 1000) (b / 1000)); [|reflexivity..].
  destruct (N.compare ((a / 100) mod 10) ((b / 100) mod 10)); [|reflexivity..].
  destruct (N.compare ((a / 10) mod 10) ((b / 10) mod 10)); [|reflexivity..].
  destruct (N.compare (a mod 10) (b mod 10)); reflexivity.
Qed.

(** From 1000 to 9999 the numeral of a year is its four digits. *)
Lemma year_numeral_four_digits (y : N) :
  1000 <= y -> y <= 9999 -> year_numeral y = zero_pad4 y.
Proof.
  intros Hlo Hhi.
  assert (Hall : forallb (fun k => String.eqb (year_numeral (N.of_nat k))
                                              (zero_pad4 (N.of_nat k)))
                         (seq (N.to_nat 1000) (N.to_nat 9000)) = true)
    by (vm_compute; reflexivity).
  rewrite forallb_forall in Hall.
  specialize (Hall (N.to_nat y)). rewrite N2Nat.id in Hall.
  apply String.eqb_eq, Hall, in_seq. lia.
Qed.

(** Below 1000 it is shorter, and the order of the strings is no longer
    the order of the years. *)
Example year_numeral_999 :
  year_numeral 999 = "999"
  /\ String.ltb (strftime_ym {| year := 1000; month := 1; day := 1 |})
                (strftime_ym {| year := 999; month := 12; day := 1 |}) = true.
Proof. split; reflexivity. Qed.

Lemma four_digits_bounds (d : date) :
  four_digits d = true
  -> 1000 <= year d <= 9999 /\ 1 <= month d <= 12.
Proof.
  unfold four_digits, valid_date. intros H.
  repeat rewrite andb_true_iff in H. repeat rewrite N.leb_le in H. lia.
Qed.

Lemma four_digits_valid (d : date) : four_digits d = true -> valid_date d = true.
Proof. unfold four_digits. intros H. apply andb_true_iff in H. tauto. Qed.

Lemma strftime_ym_compare (a b : date) :
  four_digits a = true -> four_digits b = true ->
  String.compare (strftime_ym a) (strftime_ym b)
  = N.compare (month_number a) (month_number b).
Proof.
  intros Ha Hb. apply four_digits_bounds in Ha, Hb.
  unfold month_number, strftime_ym.
  destruct a as [y1 m1 d1], b as [y2 m2 d2]; cbn [year month day] in *.
  rewrite !year_numeral_four_digits by lia.
  rewrite zero_pad4_compare by lia.
  change ("-" ++ zero_pad2 m1)%string with (String "-" (zero_pad2 m1 ++ "")).
  change ("-" ++ zero_pad2 m2)%string with (String "-" (zero_pad2 m2 ++ "")).
  cbn [String.compare]. unfold Ascii.compare at 1. rewrite N.compare_refl.
  rewrite zero_pad2_compare by lia. cbn [String.compare].
  destruct (N.compare_spec y1 y2); [destruct (N.compare_spec m1 m2)|..];
    symmetry;
    first [apply N.compare_eq_iff | apply N.compare_lt_iff | apply N.compare_gt_iff];
    lia.
Qed.

(** *** The numeral and the month can be read back *)

Lemma string_length_app (a b : string) :
  String.length (a ++ b) = (String.length a + String.length b)%nat.
Proof. induction a as [|c a IH]; simpl; [reflexivity | rewrite IH; reflexivity]. Qed.

Lemma append_same_length (a a' b b' : string) :
  String.length b = String.length b' ->
  (a ++ b)%string = (a' ++ b')%string -> a = a' /\ b = b'.
Proof.
  revert a'. induction a as [|c a IH]; intros [|c' a'] Hlen Heq; simpl in Heq.
  - auto.
  - exfalso. apply (f_equal String.length) in Heq. simpl in Heq.
    rewrite string_length_app in Heq. lia.
  - exfalso. apply (f_equal String.length) in Heq. simpl in Heq.
    rewrite string_length_app in Heq. lia.
  - inversion Heq; subst. destruct (IH a' Hlen) as [-> ->]; auto.
Qed.

Lemma year_numeral_inj (y y' : N) : year_numeral y = year_numeral y' -> y = y'.
Proof.
  unfold year_numeral. intros Heq.
  assert (Hnil : forall n, N.to_uint n <> Decimal.Nil).
  { intros n Hn. pose proof (DecimalN.Unsigned.of_to n) as Hof.
    rewrite Hn in Hof. simpl in Hof. subst n. discriminate. }
  apply DecimalN.Unsigned.to_uint_inj.
  pose proof (NilZero.usu _ (Hnil y)) as H1.
  pose proof (NilZero.usu _ (Hnil y')) as H2.
  rewrite Heq in H1. congruence.
Qed.

Lemma zero_pad2_inj (m m' : N) :
  m < 100 -> m' < 100 -> zero_pad2 m = zero_pad2 m' -> m = m'.
Proof.
  intros Hm Hm' Heq.
  pose proof (zero_pad2_compare m m' "" "" Hm Hm') as Hc.
  rewrite Heq, compare_refl in Hc.
  destruct (N.compare_spec m m'); [assumption | discriminate..].
Qed.

(** ** The filter *)

Lemma data_with_index (i : nat) (r : Month.row) : data (with_index i r) = data r.
Proof. reflexivity. Qed.

Lemma select_rows_snd (mask : Month.row -> bool) (df : list Month.row) (i : nat) :
  map snd (select_rows mask i df) = filter mask df.
Proof.
  revert i. induction df as [|r df IH]; intros i; simpl; [reflexivity|].
  destruct (mask r); simpl; rewrite IH; reflexivity.
Qed.

Lemma select_rows_In (mask : Month.row -> bool) (df : list Month.row) (i j : nat)
  (r : Month.row) :
  In (j, r) (select_rows mask i df)
  <-> exists k, j = (i + k)%nat /\ nth_error df k = Some r /\ mask r = true.
Proof.
  revert i. induction df as [|x df IH]; intros i; simpl.
  - split; [tauto|]. intros [[|k] [_ [H _]]]; discriminate.
  - assert (Hrec : In (j, r) (select_rows mask (S i) df)
                   <-> exists k, j = (i + S k)%nat /\ nth_error df k = Some r
                                 /\ mask r = true).
    { rewrite IH. split; intros [k [H1 H2]]; exists k; split; auto; lia. }
    destruct (mask x) eqn:Hx; simpl; rewrite Hrec; split.
    + intros [H|[k [H1 [H2 H3]]]].
      * inversion H; subst. exists 0%nat. repeat split; auto with arith.
      * exists (S k). auto.
    + intros [[|k] [H1 [H2 H3]]]; simpl in H2.
      * left. inversion H2; subst. f_equal. lia.
      * right. exists k. auto.
    + intros [k [H1 [H2 H3]]]. exists (S k). auto.
    + intros [[|k] [H1 [H2 H3]]]; simpl in H2.
      * inversion H2; subst. congruence.
      * exists k. auto.
Qed.


Lemma filter_data_nil (df : list Month.row) (linea : string) (s e : date) :
  (forall r, In r df -> in_range linea (strftime_ym s) (strftime_ym e) r = false) ->
  filter_data df linea s e = [].
Proof.
  intros H. unfold filter_data, reset_index.
  assert (Hsel : forall i, select_rows (in_range linea (strftime_ym s) (strftime_ym e)) i df = []).
  { induction df as [|r df IH]; intros i; simpl; [reflexivity|].
    rewrite (H r (or_introl eq_refl)). apply IH. intros x Hx. apply H. right. exact Hx. }
  rewrite Hsel. reflexivity.
Qed.





(** ** The ridership loader *)

Lemma strftime_ym_day (d d' : date) :
  year d' = year d -> month d' = month d -> strftime_ym d' = strftime_ym d.
Proof. unfold strftime_ym. intros -> ->. reflexivity. Qed.

Lemma strftime_ym_inj (d d' : date) :
  valid_date d = true -> valid_date d' = true ->
  strftime_ym d = strftime_ym d' -> year d' = year d /\ month d' = month d.
Proof.
  intros Hd Hd' Heq. unfold strftime_ym in Heq.
  apply append_same_length in Heq; [|reflexivity].
  destruct Heq as [Hy Hm]. apply year_numeral_inj in Hy.
  assert (Hm' : zero_pad2 (month d) = zero_pad2 (month d'))
    by exact (f_equal (fun s => match s with String _ t => t | "" => "" end) Hm).
  unfold valid_date in Hd, Hd'.
  repeat rewrite andb_true_iff in Hd, Hd'. repeat rewrite N.leb_le in Hd, Hd'.
  apply zero_pad2_inj in Hm'; [auto | lia | lia].
Qed.

(** C8.  When every date of the ridership file parses (and no station or
    line cell is missing, so that the loader returns), the loader returns
    one record per row, and the [year_month] of each record is its date
    truncated to the first of the month, formatted as year and month: it is
    the key of every date of the same year and month, whatever the day, and
    of no date of another month. *)
Theorem year_month_truncates (to_datetime : string -> option date)
  (csv : list Csv.row) :
  (forall r, In r csv -> to_datetime (Csv.fecha r) <> None) ->
  (forall r, In r csv -> Csv.estacion r <> None /\ Csv.linea r <> None) ->
  exists df_stc,
    load_and_preprocess_data to_datetime csv = Some df_stc
    /\ Forall2
         (fun r row =>
            exists d,
              to_datetime (Csv.fecha r) = Some d
              /\ Stc.fecha row = d
              /\ Stc.year_month row = strftime_ym (truncate_month d)
              /\ Stc.year_month row
                 = (year_numeral (year d) ++ "-" ++ zero_pad2 (month d))%string
              /\ (forall d', year d' = year d -> month d' = month d ->
                             strftime_ym d' = Stc.year_month row)
              /\ (forall d', valid_date d = true -> valid_date d' = true ->
                             strftime_ym d' = Stc.year_month row ->
                             year d' = year d /\ month d' = month d))
         csv df_stc.
Proof.
  induction csv as [|r csv IH]; intros Hparse Hcells.
  - exists []. split; [reflexivity | constructor].
  - destruct IH as [df [Hload Hall]].
    { intros x Hx. apply Hparse. right. exact Hx. }
    { intros x Hx. apply Hcells. right. exact Hx. }
    simpl. rewrite Hload.
    destruct (Hcells r (or_introl eq_refl)) as [He Hl].
    destruct (Csv.estacion r) as [e|]; [|congruence].
    destruct (Csv.linea r) as [l|]; [|congruence].
    destruct (to_datetime (Csv.fecha r)) as [d|] eqn:Hd.
    + exists (preprocess_row d e l (Csv.afluencia r) :: df). split; [reflexivity|].
      constructor; [|exact Hall].
      exists d. cbn [preprocess_row Stc.fecha Stc.year_month].
      repeat split; auto.
      * intros d' Hy Hm. apply strftime_ym_day; assumption.
      * apply (strftime_ym_inj d d'); auto.
      * apply (strftime_ym_inj d d'); auto.
    + exfalso. apply (Hparse r (or_introl eq_refl)). exact Hd.
Qed.

Lemma year_month_truncates_witness :
  exists df_stc,
    load_and_preprocess_data iso_to_datetime
      [ {| Csv.fecha := "2024-02-29"; Csv.estacion := Some "Zocalo";
           Csv.linea := Some "Linea 2"; Csv.afluencia := 31 |} ] = Some df_stc
    /\ map Stc.year_month df_stc = ["2024-02"].
Proof.
  destruct (year_month_truncates iso_to_datetime
              [ {| Csv.fecha := "2024-02-29"; Csv.estacion := Some "Zocalo";
                   Csv.linea := Some "Linea 2"; Csv.afluencia := 31 |} ])
    as [df [Hload Hall]].
  - intros r [<-|[]]. discriminate.
  - intros r [<-|[]]. split; discriminate.
  - exists df. split; [exact Hload|].
    inversion Hall as [|r row l l' [d [Hd [_ [Hym _]]]] Hrest]; subst.
    inversion Hrest; subst. simpl. rewrite Hym.
    cbn in Hd. inversion Hd; subst. reflexivity.
Defined.

(** ** Sorting and distinct values *)

Section SortFacts.
Context {A : Type} (le : A -> A -> bool).

Lemma insert_sorted_perm (x : A) (l : list A) :
  Permutation (insert_sorted le x l) (x :: l).
Proof.
  induction l as [|y l IH]; simpl; [reflexivity|].
  destruct (le x y); [reflexivity|].
  rewrite IH. apply perm_swap.
Qed.

Lemma sort_by_perm (l : list A) : Permutation (sort_by le l) l.
Proof.
  induction l as [|x l IH]; simpl; [reflexivity|].
  rewrite insert_sorted_perm. constructor. exact IH.
Qed.

Lemma sort_by_In (l : list A) (x : A) : In x (sort_by le l) <-> In x l.
Proof.
  split; apply Permutation_in; [|symmetry]; apply sort_by_perm.
Qed.

Lemma sort_by_NoDup (l : list A) : NoDup l -> NoDup (sort_by le l).
Proof.
  apply Permutation_NoDup. symmetry. apply sort_by_perm.
Qed.

Lemma sort_by_length (l : list A) : List.length (sort_by le l) = List.length l.
Proof. apply Permutation_length, sort_by_perm. Qed.

End SortFacts.

Lemma unique_sorted_In (l : list string) (x : string) :
  In x (unique_sorted l) <-> In x l.
Proof.
  unfold unique_sorted. rewrite sort_by_In. apply nodup_In.
Qed.

Lemma unique_sorted_NoDup (l : list string) : NoDup (unique_sorted l).
Proof.
  unfold unique_sorted. apply sort_by_NoDup, NoDup_nodup.
Qed.

(** ** The pivot *)

Lemma pivot_key_eqb_eq (a b : string * string) :
  pivot_key_eqb a b = true <-> a = b.
Proof.
  destruct a as [a1 a2], b as [b1 b2]. unfold pivot_key_eqb. simpl.
  rewrite andb_true_iff, !String.eqb_eq. split.
  - intros [-> ->]. reflexivity.
  - intros H. inversion H. auto.
Qed.

Lemma has_duplicate_false (l : list (string * string)) :
  has_duplicate pivot_key_eqb l = false <-> NoDup l.
Proof.
  induction l as [|x l IH]; simpl.
  - split; [constructor | reflexivity].
  - rewrite orb_false_iff, IH. split.
    + intros [Hx Hl]. constructor; [|exact Hl].
      intros Hin. apply not_true_iff_false in Hx. apply Hx.
      apply existsb_exists. exists x. split; [exact Hin|].
      apply pivot_key_eqb_eq. reflexivity.
    + intros H. inversion H as [|? ? Hx Hl]; subst. split; [|exact Hl].
      apply not_true_iff_false. intros Hex. apply existsb_exists in Hex.
      destruct Hex as [y [Hy Heq]]. apply pivot_key_eqb_eq in Heq. subst y.
      contradiction.
Qed.

Lemma cell_absent (df : list Month.row) (i c : string) :
  ~ In (i, c) (map pivot_key df) -> cell df i c = None.
Proof.
  intros Hnot. unfold cell.
  destruct (find _ df) as [r|] eqn:Hf; [|reflexivity].
  apply find_some in Hf. destruct Hf as [Hin Heq].
  apply pivot_key_eqb_eq in Heq. exfalso. apply Hnot. rewrite <- Heq.
  apply in_map. exact Hin.
Qed.

Lemma sum_Z_single (cols : list string) (e : string) (a : Z) (g : string -> Z) :
  NoDup cols -> In e cols -> g e = 0%Z ->
  sum_Z (map (fun c => if String.eqb e c then a else g c) cols)
  = (a + sum_Z (map g cols))%Z.
Proof.
  intros Hnd Hin Hg. induction cols as [|x cols IH]; [contradiction|].
  inversion Hnd as [|? ? Hx Hnd']; subst. simpl.
  destruct (String.eqb_spec e x) as [->|Hne].
  - rewrite Hg.
    assert (Hsame : map (fun c => if String.eqb x c then a else g c) cols = map g cols).
    { apply map_ext_in. intros c Hc. destruct (String.eqb_spec x c); [subst; contradiction|].
      reflexivity. }
    unfold sum_Z in *. rewrite Hsame. lia.
  - destruct Hin as [->|Hin]; [congruence|].
    unfold sum_Z in *. rewrite (IH Hnd' Hin). lia.
Qed.

(** The sum of a row of the pivot over all its columns is the ridership of
    all the rows of that month. *)
Lemma pivot_row_sum (cols : list string) (i : string) (df : list Month.row) :
  NoDup cols -> NoDup (map pivot_key df) ->
  (forall r, In r df -> In (Month.estacion_clean r) cols) ->
  sum_Z (map nan_to_zero (map (cell df i) cols)) = bucket_total df i.
Proof.
  intros Hcols. rewrite map_map. unfold bucket_total.
  induction df as [|r df IH]; intros Hnd Hin.
  - clear. induction cols as [|c cols IHc]; [reflexivity|]. exact IHc.
  - simpl in Hnd. inversion Hnd as [|? ? Hr Hnd']; subst.
    assert (IH' := IH Hnd' (fun x Hx => Hin x (or_intror Hx))).
    cbn [filter].
    destruct (String.eqb_spec (Month.year_month r) i) as [Hi|Hi].
    + cbn [map sum_Z fold_right]. fold (sum_Z (map Month.afluencia
         (filter (fun r0 => String.eqb (Month.year_month r0) i) df))).
      rewrite <- IH'.
      rewrite <- (sum_Z_single cols (Month.estacion_clean r) (Month.afluencia r)
                   (fun c => nan_to_zero (cell df i c))); auto.
      * f_equal. apply map_ext. intros c. unfold cell. cbn [find].
        unfold pivot_key at 1, pivot_key_eqb at 1. cbn [fst snd]. rewrite Hi, String.eqb_refl.
        cbn [andb]. destruct (String.eqb (Month.estacion_clean r) c); reflexivity.
      * apply Hin. left. reflexivity.
      * rewrite cell_absent; [reflexivity|]. unfold pivot_key in Hr at 1. rewrite Hi in Hr.
        exact Hr.
    + rewrite <- IH'. f_equal. apply map_ext. intros c. unfold cell. cbn [find].
      unfold pivot_key at 1, pivot_key_eqb at 1. cbn [fst snd].
      destruct (String.eqb_spec (Month.year_month r) i); [contradiction|]. reflexivity.
Qed.

(** ** Columns of a frame *)

Lemma position_lt (c : string) (l : list string) :
  In c l -> (position c l < List.length l)%nat.
Proof.
  induction l as [|x l IH]; simpl; [tauto|].
  destruct (String.eqb_spec c x); [lia|].
  intros [H|H]; [congruence|]. apply IH in H. lia.
Qed.

Lemma position_app_last (c : string) (l : list string) :
  ~ In c l -> position c (l ++ [c]) = List.length l.
Proof.
  induction l as [|x l IH]; simpl; intros H.
  - rewrite String.eqb_refl. reflexivity.
  - destruct (String.eqb_spec c x); [exfalso; auto|]. f_equal. apply IH. tauto.
Qed.

Lemma nth_update {A : Type} (n : nat) (v d : A) (l : list A) :
  (n < List.length l)%nat -> nth n (update n v l) d = v.
Proof.
  revert n. induction l as [|x l IH]; intros [|n]; simpl; try lia; auto.
  intros H. apply IH. lia.
Qed.

Lemma map_snd_combine {A B : Type} (l : list A) (l' : list B) :
  List.length l' = List.length l -> map snd (combine l l') = l'.
Proof.
  revert l'. induction l as [|x l IH]; intros [|y l']; simpl; try discriminate; auto.
  intros H. f_equal. apply IH. lia.
Qed.

Lemma has_column_In (c : string) (t : frame) :
  has_column c t = true <-> In c (columns t).
Proof.
  unfold has_column. rewrite existsb_exists. split.
  - intros [x [Hx Heq]]. apply String.eqb_eq in Heq. subst. exact Hx.
  - intros H. exists c. split; [exact H | apply String.eqb_refl].
Qed.

(** Reading back the column that was just assigned. *)
Lemma column_set_column (c : string) (series : list (option Z)) (t : frame) :
  List.length series = List.length (values t) ->
  (forall row, In row (values t) -> List.length row = List.length (columns t)) ->
  column c (set_column c series t) = series.
Proof.
  intros Hlen Hrows. unfold column, set_column. cbn [columns values].
  rewrite map_map.
  rewrite <- (map_snd_combine (values t) series Hlen) at 2.
  apply map_ext_in. intros [row v] Hin. cbn [fst snd].
  apply in_combine_l in Hin. apply Hrows in Hin.
  destruct (has_column c t) eqn:Hc.
  - apply nth_update. rewrite Hin. apply position_lt, has_column_In, Hc.
  - rewrite position_app_last.
    + rewrite <- Hin, app_nth2, Nat.sub_diag by lia. reflexivity.
    + intros H. apply has_column_In in H. congruence.
Qed.

Lemma firstn_incl {A : Type} (n : nat) (l : list A) (x : A) :
  In x (firstn n l) -> In x l.
Proof.
  revert l. induction n as [|n IH]; intros [|y l]; simpl; try tauto.
  intros [H|H]; auto.
Qed.

Lemma top_5_are_columns (df : list Month.row) (c : string) :
  In c (map fst (firstn 5 (sort_descending (total_per_station df)))) ->
  In c (unique_sorted (map Month.estacion_clean df)).
Proof.
  rewrite in_map_iff. intros [[c' z] [Hc Hin]]. simpl in Hc. subst c'.
  apply firstn_incl in Hin. unfold sort_descending in Hin.
  apply sort_by_In in Hin. unfold total_per_station in Hin.
  apply in_map_iff in Hin. destruct Hin as [x [Heq Hx]].
  inversion Heq; subst. exact Hx.
Qed.

(** Without duplicate labels the chart builder goes through: this is the
    frame it returns. *)
Lemma create_line_chart_unfold (df : list Month.row) :
  NoDup (map pivot_key df) ->
  let idx := unique_sorted (map Month.year_month df) in
  let cols := unique_sorted (map Month.estacion_clean df) in
  let top := map fst (firstn 5 (sort_descending (total_per_station df))) in
  let pivoted_df :=
    {| index := idx; columns := cols;
       values := map (fun i => map (cell df i) cols) idx |} in
  create_line_chart df
  = Some (set_column "Total" (map Some (sum_rows pivoted_df))
            {| index := idx; columns := top;
               values := map (fun row => map (fun c => nth (position c cols) row None) top)
                             (values pivoted_df) |}).
Proof.
  intros Hnd idx cols top pivoted_df. unfold create_line_chart, pivot.
  apply has_duplicate_false in Hnd. rewrite Hnd.
  fold idx cols top pivoted_df. unfold get_columns.
  assert (Htop : forallb (fun c => has_column c pivoted_df) top = true).
  { apply forallb_forall. intros c Hc. apply has_column_In.
    apply top_5_are_columns. exact Hc. }
  rewrite Htop. reflexivity.
Qed.

(** C1.  For filtered records with no two rows for the same month and
    station (the condition under which [pivot] does not raise), the chart
    builder returns a frame, indexed by the months of the records, whose
    column [Total] holds at each month the sum of the ridership of all the
    records of that month, whatever their station: the five stations of
    the display play no part in it. *)
Theorem chart_total_all_stations (filtered_df_stations : list Month.row) :
  NoDup (map pivot_key filtered_df_stations) ->
  exists chart,
    create_line_chart filtered_df_stations = Some chart
    /\ index chart = unique_sorted (map Month.year_month filtered_df_stations)
    /\ has_column "Total" chart = true
    /\ column "Total" chart
       = map (fun ym => Some (bucket_total filtered_df_stations ym)) (index chart).
Proof.
  intros Hnd. rewrite (create_line_chart_unfold _ Hnd).
  eexists. split; [reflexivity|]. split; [reflexivity|].
  split.
  - unfold has_column, set_column. cbn [columns].
    match goal with |- context [if ?b then _ else _] => destruct b eqn:Hb end.
    + exact Hb.
    + rewrite existsb_app. apply orb_true_iff. right. reflexivity.
  - rewrite column_set_column.
    + unfold set_column, sum_rows. cbn [index values]. rewrite !map_map.
      apply map_ext. intros i. f_equal.
      apply pivot_row_sum; [apply unique_sorted_NoDup | exact Hnd |].
      intros r Hr. apply unique_sorted_In, in_map. exact Hr.
    + cbn [values]. unfold sum_rows. cbn [values]. rewrite !length_map. reflexivity.
    + cbn [values columns]. intros row Hrow. apply in_map_iff in Hrow.
      destruct Hrow as [r [<- _]]. apply length_map.
Qed.

Lemma chart_total_all_stations_witness :
  exists chart,
    create_line_chart six_stations = Some chart
    /\ columns chart
       = ["balderas"; "candelaria"; "merced"; "observatorio"; "pantitlan"; "Total"]
    /\ column "Total" chart = [Some 201%Z; Some 5%Z].
Proof.
  destruct (chart_total_all_stations six_stations) as [chart [H1 [H2 [H3 H4]]]].
  - apply has_duplicate_false. reflexivity.
  - exists chart. split; [exact H1|]. split.
    + vm_compute in H1. inversion H1. reflexivity.
    + rewrite H4, H2. reflexivity.
Defined.

(** ** The aggregated stations *)

Lemma stations_aggregate_eq (df : list Month.row) :
  stations_aggregate df
  = map (fun c =>
           {| Aggregate.estacion_clean := c;
              Aggregate.afluencia := station_total df c;
              Aggregate.lat := first_valid (map Month.lat (station_rows df c));
              Aggregate.lon := first_valid (map Month.lon (station_rows df c));
              Aggregate.size := marker_size (max_afluencia df) (station_total df c) |})
        (stations_of df).
Proof.
  unfold stations_aggregate, max_afluencia, stations_of. rewrite !map_map.
  reflexivity.
Qed.

Lemma fold_left_max_ge (l : list Z) (x : Z) :
  (x <= fold_left Z.max l x)%Z /\ (forall y, In y l -> (y <= fold_left Z.max l x)%Z).
Proof.
  revert x. induction l as [|a l IH]; intros x; simpl.
  - split; [lia | tauto].
  - destruct (IH (Z.max x a)) as [H1 H2]. split; [lia|].
    intros y [<-|Hy]; [lia | auto].
Qed.

Lemma fold_left_max_In (l : list Z) (x : Z) :
  fold_left Z.max l x = x \/ In (fold_left Z.max l x) l.
Proof.
  revert x. induction l as [|a l IH]; intros x; simpl; [auto|].
  destruct (IH (Z.max x a)) as [H|H]; [|auto].
  rewrite H. destruct (Z.max_spec x a) as [[_ ->]|[_ ->]]; auto.
Qed.

Lemma max_Z_spec (l : list Z) (m : Z) :
  max_Z l = Some m -> In m l /\ forall y, In y l -> (y <= m)%Z.
Proof.
  destruct l as [|x l]; simpl; [discriminate|]. intros H. inversion H; subst. clear H.
  split.
  - destruct (fold_left_max_In l x) as [->|H]; auto.
  - destruct (fold_left_max_ge l x) as [H1 H2]. intros y [<-|Hy]; auto.
Qed.

Lemma aggregate_afluencia (df : list Month.row) :
  map Aggregate.afluencia (stations_aggregate df)
  = map (station_total df) (stations_of df).
Proof. rewrite stations_aggregate_eq, map_map. reflexivity. Qed.

Lemma scaled_le (a m : Z) :
  (0 < m)%Z -> (a <= m)%Z ->
  (inject_Z a / inject_Z m * inject_Z 1000 <= inject_Z 1000)%Q.
Proof.
  intros Hm Ha. destruct m as [|p|p]; try lia.
  unfold Qle, Qdiv, Qmult, Qinv, inject_Z. cbn [Qnum Qden]. nia.
Qed.

Lemma scaled_max (m : Z) :
  (0 < m)%Z -> (inject_Z m / inject_Z m * inject_Z 1000 == inject_Z 1000)%Q.
Proof.
  intros Hm. destruct m as [|p|p]; try lia.
  unfold Qeq, Qdiv, Qmult, Qinv, inject_Z. cbn [Qnum Qden]. nia.
Qed.

Lemma scaled_linear (a m : Z) :
  (0 < m)%Z ->
  (inject_Z a / inject_Z m * inject_Z 1000
   == (inject_Z 1000 / inject_Z m) * inject_Z a)%Q.
Proof.
  intros Hm. destruct m as [|p|p]; try lia.
  unfold Qeq, Qdiv, Qmult, Qinv, inject_Z. cbn [Qnum Qden]. nia.
Qed.

(** C2.  When the filtered records are not empty and the largest ridership
    [m] of one of their stations is positive, the frame drawn on the map has
    one row for each station of the records, some station has the ridership
    [m], and the row of every station carries the station's ridership and,
    as marker size, that ridership divided by [m] times 1000: the ridership
    times the constant 1000 / m, at most 1000, and 1000 for a station whose
    ridership is [m].  The quotient is taken in exact arithmetic. *)
Theorem marker_size_scaling (filtered_df_stations : list Month.row) (m : Z) :
  max_afluencia filtered_df_stations = Some m ->
  (0 < m)%Z ->
  let shown := st_map (display_map_and_table filtered_df_stations) in
  map Aggregate.estacion_clean shown = stations_of filtered_df_stations
  /\ (exists c, In c (map Month.estacion_clean filtered_df_stations)
                /\ station_total filtered_df_stations c = m)
  /\ forall c, In c (map Month.estacion_clean filtered_df_stations) ->
       exists a q,
         In a shown
         /\ Aggregate.estacion_clean a = c
         /\ Aggregate.afluencia a = station_total filtered_df_stations c
         /\ Aggregate.size a = Some q
         /\ q = (inject_Z (station_total filtered_df_stations c) / inject_Z m
                 * inject_Z 1000)%Q
         /\ (q == (inject_Z 1000 / inject_Z m)
                   * inject_Z (station_total filtered_df_stations c))%Q
         /\ (q <= inject_Z 1000)%Q
         /\ (station_total filtered_df_stations c = m -> (q == inject_Z 1000)%Q).
Proof.
  intros Hmax Hpos shown. unfold shown. cbn [display_map_and_table st_map].
  pose proof Hmax as Hspec. unfold max_afluencia in Hspec.
  apply max_Z_spec in Hspec. destruct Hspec as [Hin Hle].
  rewrite stations_aggregate_eq, Hmax.
  split; [rewrite map_map; apply map_id|].
  split.
  - apply in_map_iff in Hin. destruct Hin as [c [Hc Hin]].
    exists c. split; [|exact Hc]. apply unique_sorted_In, Hin.
  - intros c Hc.
    assert (Hst : In c (stations_of filtered_df_stations))
      by (apply unique_sorted_In, Hc).
    assert (Hcm : (station_total filtered_df_stations c <= m)%Z)
      by (apply Hle, in_map, Hst).
    eexists. exists (inject_Z (station_total filtered_df_stations c) / inject_Z m
                     * inject_Z 1000)%Q.
    split; [apply in_map_iff; exists c; split; [reflexivity | exact Hst]|].
    cbn [Aggregate.estacion_clean Aggregate.afluencia Aggregate.size].
    unfold marker_size. destruct (Z.eqb_spec m 0); [lia|].
    repeat split.
    + apply scaled_linear; exact Hpos.
    + apply scaled_le; assumption.
    + intros ->. apply scaled_max. exact Hpos.
Qed.

Lemma marker_size_scaling_witness :
  exists a q,
    In a (st_map (display_map_and_table six_stations))
    /\ Aggregate.estacion_clean a = "balderas"
    /\ Aggregate.afluencia a = 60%Z
    /\ Aggregate.size a = Some q
    /\ (q == inject_Z 1000)%Q.
Proof.
  destruct (marker_size_scaling six_stations 60 eq_refl eq_refl) as [_ [_ H]].
  destruct (H "balderas" (or_introl eq_refl)) as [a [q [H1 [H2 [H3 [H4 [_ [_ [_ H5]]]]]]]]].
  exists a, q. repeat split; auto.
Defined.

Lemma first_valid_none {A : Type} (l : list (option A)) :
  (forall x, In x l -> x = None) -> first_valid l = None.
Proof.
  induction l as [|x l IH]; intros H; [reflexivity|].
  rewrite (H x (or_introl eq_refl)). simpl. apply IH.
  intros y Hy. apply H. right. exact Hy.
Qed.

(** C4, as the claim states it, fails: the station whose join found no
    coordinates is in the frame handed to [st.map], with null [lat] and
    [lon], and its ridership is the maximum that scales the other marker
    (size 1000 * 10 / 90, not 1000). *)
Lemma null_coordinates_not_excluded :
  ~ (forall a, In a (st_map (display_map_and_table with_join_miss)) ->
               Aggregate.lat a <> None /\ Aggregate.lon a <> None)
  /\ (exists a, In a (st_map (display_map_and_table with_join_miss))
                /\ Aggregate.estacion_clean a = "salto del agua"
                /\ Aggregate.lat a = None /\ Aggregate.lon a = None
                /\ Aggregate.size a = Some (90000 # 90)%Q)
  /\ (exists a, In a (st_map (display_map_and_table with_join_miss))
                /\ Aggregate.estacion_clean a = "balderas"
                /\ Aggregate.size a = Some (10000 # 90)%Q).
Proof.
  split; [|split].
  - intros H.
    destruct (H {| Aggregate.estacion_clean := "salto del agua";
                   Aggregate.afluencia := 90;
                   Aggregate.lat := None; Aggregate.lon := None;
                   Aggregate.size := Some (90000 # 90)%Q |}) as [Hlat _].
    + right. left. reflexivity.
    + apply Hlat. reflexivity.
  - eexists. split; [right; left; reflexivity|]. repeat split.
  - eexists. split; [left; reflexivity|]. repeat split.
Qed.

(** C4, amended.  [display_map_and_table] drops no station: the frame it
    hands to [st.map] has one row for each distinct station of the filtered
    records, in ascending order; a station all of whose rows have null
    coordinates has a row with null [lat] and [lon], and the ridership of
    that row is bounded by the maximum that scales the marker sizes, which
    therefore takes it into account. *)
Theorem null_coordinates_kept (filtered_df_stations : list Month.row) (c : string) :
  In c (map Month.estacion_clean filtered_df_stations) ->
  (forall r, In r filtered_df_stations -> Month.estacion_clean r = c ->
             Month.lat r = None /\ Month.lon r = None) ->
  map Aggregate.estacion_clean (st_map (display_map_and_table filtered_df_stations))
  = unique_sorted (map Month.estacion_clean filtered_df_stations)
  /\ exists a,
       In a (st_map (display_map_and_table filtered_df_stations))
       /\ Aggregate.estacion_clean a = c
       /\ Aggregate.lat a = None /\ Aggregate.lon a = None
       /\ Aggregate.afluencia a = station_total filtered_df_stations c
       /\ exists m,
            max_Z (map Aggregate.afluencia (stations_aggregate filtered_df_stations))
            = Some m
            /\ (Aggregate.afluencia a <= m)%Z
            /\ Aggregate.size a = marker_size (Some m) (Aggregate.afluencia a).
Proof.
  intros Hc Hnull. cbn [display_map_and_table st_map].
  rewrite aggregate_afluencia, stations_aggregate_eq, map_map. cbn [Aggregate.estacion_clean].
  rewrite map_id. split; [reflexivity|].
  assert (Hin : In c (stations_of filtered_df_stations))
    by (apply unique_sorted_In; exact Hc).
  eexists. split; [apply in_map_iff; exists c; split; [reflexivity | exact Hin]|].
  cbn [Aggregate.estacion_clean Aggregate.lat Aggregate.lon Aggregate.afluencia
       Aggregate.size].
  assert (Hrows : forall r, In r (station_rows filtered_df_stations c) ->
                            Month.lat r = None /\ Month.lon r = None).
  { intros r Hr. apply filter_In in Hr. destruct Hr as [Hr Heq].
    apply String.eqb_eq in Heq. auto. }
  repeat split.
  - apply first_valid_none. intros x Hx. apply in_map_iff in Hx.
    destruct Hx as [r [<- Hr]]. apply Hrows. exact Hr.
  - apply first_valid_none. intros x Hx. apply in_map_iff in Hx.
    destruct Hx as [r [<- Hr]]. apply Hrows. exact Hr.
  - destruct (max_Z (map (station_total filtered_df_stations)
                       (stations_of filtered_df_stations))) as [m|] eqn:Hmax.
    + exists m. split; [reflexivity|]. split.
      * apply (max_Z_spec _ _ Hmax). apply in_map. exact Hin.
      * unfold max_afluencia. rewrite Hmax. reflexivity.
    + exfalso. destruct (stations_of filtered_df_stations); [contradiction|discriminate].
Qed.

Lemma null_coordinates_kept_witness :
  exists a,
    In a (st_map (display_map_and_table with_join_miss))
    /\ Aggregate.estacion_clean a = "salto del agua"
    /\ Aggregate.lat a = None /\ Aggregate.lon a = None.
Proof.
  destruct (null_coordinates_kept with_join_miss "salto del agua")
    as [_ [a [H1 [H2 [H3 [H4 _]]]]]].
  - right. left. reflexivity.
  - intros r [<-|[<-|[]]] Heq; [discriminate Heq | split; reflexivity].
  - exists a. auto.
Defined.

(** ** Uniqueness of the pivot labels along the pipeline *)

Lemma groupby_month_keys (df_stc : list Stc.row) :
  NoDup (map fst (groupby_month df_stc)).
Proof.
  unfold groupby_month. rewrite map_map. cbn [fst]. rewrite map_id.
  apply sort_by_NoDup, NoDup_nodup.
Qed.

Lemma joins_key (l : group_key * Z) (s : Station.row) :
  joins l s = true ->
  station_key s = (snd (fst l), snd (fst (fst l))).
Proof.
  destruct l as [[[ym linea] estacion] a]. unfold joins, station_key. cbn [fst snd].
  rewrite andb_true_iff, !String.eqb_eq. intros [-> ->]. reflexivity.
Qed.

Lemma filter_at_most_one {A B : Type} (f : A -> B) (p : A -> bool) (k : B)
  (l : list A) :
  NoDup (map f l) -> (forall x, p x = true -> f x = k) ->
  filter p l = [] \/ exists x, filter p l = [x].
Proof.
  intros Hnd Hp. induction l as [|x l IH]; [left; reflexivity|].
  simpl in Hnd. inversion Hnd as [|? ? Hx Hnd']; subst. simpl.
  destruct (p x) eqn:Hpx; [|auto].
  right. exists x. f_equal.
  destruct (filter p l) as [|y rest] eqn:Hf; [reflexivity|]. exfalso.
  assert (Hy : In y (filter p l)) by (rewrite Hf; left; reflexivity).
  apply filter_In in Hy. destruct Hy as [Hy Hpy]. apply Hx.
  rewrite (Hp x Hpx), <- (Hp y Hpy). apply in_map. exact Hy.
Qed.

Lemma month_key_joined (l : group_key * Z) (coords : option (Q * Q)) :
  month_key (joined_row l coords) = fst l.
Proof. destruct l as [[[ym linea] estacion] a]. reflexivity. Qed.

(** With one geometry row per key at most, the left merge keeps the keys of
    the left frame as they are. *)
Lemma merge_left_keys (left : list (group_key * Z)) (right : list Station.row) :
  NoDup (map station_key right) ->
  map month_key (merge_left left right) = map fst left.
Proof.
  intros Hnd. unfold merge_left.
  induction left as [|l left IH]; [reflexivity|].
  cbn [flat_map map]. rewrite map_app, IH. clear IH. unfold merge_row.
  destruct (filter_at_most_one station_key (joins l) _ right Hnd (joins_key l))
    as [->|[s ->]]; cbn [map app]; rewrite month_key_joined; reflexivity.
Qed.

Lemma filter_keeps_distinct {R K : Type} (keep : R -> bool) (key : R -> K) :
  forall rows, NoDup (map key rows) -> NoDup (map key (filter keep rows)).
Proof.
  intros rows. induction rows as [|x l IH]; simpl; intros H; [constructor|].
  inversion H as [|? ? Hx Hl]; subst.
  destruct (keep x); simpl; auto. constructor; auto.
  intros Hin. apply Hx. apply in_map_iff in Hin. destruct Hin as [y [Hy Hin]].
  apply filter_In in Hin. rewrite <- Hy. apply in_map. tauto.
Qed.

Lemma NoDup_map_coarser {A B C : Type} (f : A -> B) (g : A -> C) (l : list A) :
  NoDup (map f l) ->
  (forall x y, In x l -> In y l -> g x = g y -> f x = f y) ->
  NoDup (map g l).
Proof.
  induction l as [|x l IH]; simpl; intros H Hfg; [constructor|].
  inversion H as [|? ? Hx Hl]; subst. constructor.
  - intros Hin. apply Hx. apply in_map_iff in Hin. destruct Hin as [y [Hy Hin]].
    rewrite (Hfg x y); auto. apply in_map. exact Hin.
  - apply IH; auto.
Qed.

Lemma pivot_key_filter_data (df : list Month.row) (linea : string) (s e : date) :
  map pivot_key (filter_data df linea s e)
  = map pivot_key (filter (in_range linea (strftime_ym s) (strftime_ym e)) df).
Proof.
  unfold filter_data, reset_index. rewrite map_map.
  rewrite <- select_rows_snd with (i := 0%nat), map_map.
  apply map_ext. intros [i r]. reflexivity.
Qed.

(** Rows with distinct (month, line, station) keys that pass the filter
    have distinct (month, station) labels, the line being the same. *)
Lemma filter_data_labels (df : list Month.row) (linea : string) (s e : date) :
  NoDup (map month_key df) ->
  NoDup (map pivot_key (filter_data df linea s e)).
Proof.
  intros Hnd. rewrite pivot_key_filter_data.
  apply (NoDup_map_coarser month_key).
  - apply filter_keeps_distinct. exact Hnd.
  - intros x y Hx Hy Hxy. apply filter_In in Hx, Hy.
    destruct Hx as [_ Hx], Hy as [_ Hy]. unfold in_range in Hx, Hy.
    repeat rewrite andb_true_iff in Hx, Hy. rewrite !String.eqb_eq in Hx, Hy.
    unfold pivot_key in Hxy. inversion Hxy as [[H1 H2]].
    unfold month_key. destruct Hx as [[-> _] _], Hy as [[-> _] _].
    rewrite H1, H2. reflexivity.
Qed.

(** C9, as the claim states it, fails: the pipeline joins the geometry
    between the aggregation and the filter, and two geometry rows with the
    same key double the ridership row, so that [pivot] raises. *)
Lemma duplicate_geometry_breaks_pivot :
  main iso_to_datetime one_row_csv doubled_gdf 0
       {| year := 2024; month := 1; day := 1 |}
       {| year := 2024; month := 1; day := 31 |}
  = inl PivotDuplicateEntries
  /\ exists df_stc,
       load_and_preprocess_data iso_to_datetime one_row_csv = Some df_stc
       /\ selectbox (lineas_stc df_stc) 0 = Some "linea 1"
       /\ ~ NoDup (map pivot_key
                     (filter_data
                        (month_estacion df_stc (load_and_process_kml_data doubled_gdf))
                        "linea 1"
                        {| year := 2024; month := 1; day := 1 |}
                        {| year := 2024; month := 1; day := 31 |})).
Proof.
  split; [vm_compute; reflexivity|].
  eexists. split; [vm_compute; reflexivity|].
  split; [vm_compute; reflexivity|].
  intros H. apply has_duplicate_false in H. vm_compute in H. discriminate.
Qed.

(** C9, amended.  When the station geometry has at most one row per
    (station, line) key, the records that the pipeline hands to the chart
    builder (ridership summed by month, line and station, joined with the
    geometry, then filtered) have no two rows with the same month and
    station: [pivot] does not raise and the chart builder returns its
    frame. *)
Theorem pipeline_labels_unique (to_datetime : string -> option date)
  (csv : list Csv.row) (gdf : list Kml.feature) (df_stc : list Stc.row)
  (selected_linea_stc : string) (start_date_stc end_date_stc : date) :
  load_and_preprocess_data to_datetime csv = Some df_stc ->
  NoDup (map station_key (load_and_process_kml_data gdf)) ->
  let filtered_df_stations_stc :=
    filter_data (month_estacion df_stc (load_and_process_kml_data gdf))
                selected_linea_stc start_date_stc end_date_stc in
  NoDup (map pivot_key filtered_df_stations_stc)
  /\ pivot filtered_df_stations_stc <> None
  /\ exists chart, create_line_chart filtered_df_stations_stc = Some chart.
Proof.
  intros Hload Hgeo filtered.
  assert (Hnd : NoDup (map pivot_key filtered)).
  { apply filter_data_labels. unfold month_estacion.
    rewrite merge_left_keys by exact Hgeo. apply groupby_month_keys. }
  split; [exact Hnd|]. split.
  - unfold pivot. apply has_duplicate_false in Hnd. rewrite Hnd. discriminate.
  - pose proof (create_line_chart_unfold filtered Hnd) as Hchart. cbv zeta in Hchart.
    eexists. exact Hchart.
Qed.

Lemma pipeline_labels_unique_witness :
  exists df_stc chart,
    load_and_preprocess_data iso_to_datetime one_row_csv = Some df_stc
    /\ create_line_chart
         (filter_data
            (month_estacion df_stc (load_and_process_kml_data (firstn 1 doubled_gdf)))
            "linea 1"
            {| year := 2024; month := 1; day := 1 |}
            {| year := 2024; month := 1; day := 31 |})
       = Some chart.
Proof.
  destruct (pipeline_labels_unique iso_to_datetime one_row_csv (firstn 1 doubled_gdf)
              _ "linea 1" {| year := 2024; month := 1; day := 1 |}
              {| year := 2024; month := 1; day := 31 |} eq_refl)
    as [_ [_ [chart Hchart]]].
  - apply has_duplicate_false. reflexivity.
  - eexists. exists chart. split; [reflexivity | exact Hchart].
Defined.

(** ** The end-to-end example *)



(** ** Strings *)

Lemma unidecode_char_ascii (c : ascii) : is_ascii (unidecode_char c) = true.
Proof. each_char c. Qed.

Lemma isspace_lower_char (c : ascii) : isspace (lower_char c) = isspace c.
Proof. each_char c. Qed.

Lemma lower_char_lowered (c : ascii) : lowered_char (lower_char c) = true.
Proof. each_char c. Qed.

Lemma lower_char_ascii (c : ascii) :
  is_ascii_char c = true -> is_ascii_char (lower_char c) = true.
Proof. each_char c. Qed.

Lemma ascii_char_plain (c : ascii) : is_ascii_char c = true -> plain_char c = true.
Proof. each_char c. Qed.

Lemma all_chars_app (p : ascii -> bool) (a b : string) :
  all_chars p (a ++ b) = all_chars p a && all_chars p b.
Proof.
  induction a as [|c a IH]; simpl; [reflexivity|]. rewrite IH. apply andb_assoc.
Qed.

Lemma all_chars_impl (p q : ascii -> bool) (s : string) :
  (forall c, p c = true -> q c = true) -> all_chars p s = true -> all_chars q s = true.
Proof.
  intros Hpq. induction s as [|c s IH]; simpl; [reflexivity|].
  rewrite !andb_true_iff. intros [H1 H2]. auto.
Qed.

Lemma all_chars_and (p q : ascii -> bool) (s : string) :
  all_chars (fun c => p c && q c) s = all_chars p s && all_chars q s.
Proof.
  induction s as [|c s IH]; simpl; [reflexivity|]. rewrite IH.
  destruct (p c), (q c), (all_chars p s), (all_chars q s); reflexivity.
Qed.

Lemma lower_app (a b : string) : lower (a ++ b) = (lower a ++ lower b)%string.
Proof. induction a as [|c a IH]; simpl; [reflexivity|]. rewrite IH. reflexivity. Qed.

Lemma lower_lowered (s : string) : all_chars lowered_char s = true -> lower s = s.
Proof.
  induction s as [|c s IH]; simpl; [reflexivity|].
  rewrite andb_true_iff. intros [Hc Hs]. apply Ascii.eqb_eq in Hc.
  rewrite Hc, (IH Hs). reflexivity.
Qed.

Lemma lower_is_lowered (s : string) : all_chars lowered_char (lower s) = true.
Proof.
  induction s as [|c s IH]; simpl; [reflexivity|].
  rewrite lower_char_lowered. exact IH.
Qed.

Lemma lower_is_ascii (s : string) : is_ascii s = true -> is_ascii (lower s) = true.
Proof.
  unfold is_ascii. induction s as [|c s IH]; simpl; [reflexivity|].
  rewrite !andb_true_iff. intros [Hc Hs]. split; [apply lower_char_ascii, Hc | auto].
Qed.

Lemma unidecode_ascii (s : string) : is_ascii s = true -> unidecode s = s.
Proof.
  unfold is_ascii. induction s as [|c s IH]; simpl; [reflexivity|].
  rewrite andb_true_iff. intros [Hc Hs]. unfold unidecode_char. rewrite Hc.
  simpl. rewrite (IH Hs). reflexivity.
Qed.

Lemma unidecode_is_ascii (s : string) : is_ascii (unidecode s) = true.
Proof.
  unfold is_ascii. induction s as [|c s IH]; simpl; [reflexivity|].
  rewrite all_chars_app, IH. rewrite andb_true_r. apply unidecode_char_ascii.
Qed.

(** *** Stripping *)

Section Strip.
Variable p : ascii -> bool.

Lemma lstrip_chars_head (s : string) : head_ok p (lstrip_chars p s) = true.
Proof.
  induction s as [|c s IH]; simpl; [reflexivity|].
  destruct (p c) eqn:Hc; [exact IH|]. unfold head_ok. simpl. rewrite Hc. reflexivity.
Qed.

Lemma lstrip_chars_id (s : string) : head_ok p s = true -> lstrip_chars p s = s.
Proof.
  destruct s as [|c s]; [reflexivity|]. unfold head_ok. simpl.
  destruct (p c); [discriminate | reflexivity].
Qed.

Lemma last_char_some (c : ascii) (s : string) :
  exists d, last_char (String c s) = Some d.
Proof.
  revert c. induction s as [|d s IH]; intros c; [exists c; reflexivity|].
  destruct (IH d) as [e He]. exists e. exact He.
Qed.

Lemma last_char_cons (c : ascii) (s : string) :
  last_char (String c s) = match last_char s with Some d => Some d | None => Some c end.
Proof.
  destruct s as [|d s]; [reflexivity|].
  change (last_char (String c (String d s))) with (last_char (String d s)).
  destruct (last_char_some d s) as [e ->]. reflexivity.
Qed.

Lemma last_char_none (s : string) : last_char s = None -> s = "".
Proof.
  destruct s as [|c s]; [reflexivity|]. rewrite last_char_cons.
  destruct (last_char s); discriminate.
Qed.

Lemma rstrip_chars_last (s : string) : last_ok p (rstrip_chars p s) = true.
Proof.
  unfold last_ok. induction s as [|c s IH]; [reflexivity|]. simpl.
  destruct (rstrip_chars p s) as [|d r] eqn:Hr.
  - destruct (p c) eqn:Hc; simpl; [reflexivity | rewrite Hc; reflexivity].
  - rewrite last_char_cons. destruct (last_char (String d r)) eqn:Hl; [exact IH|].
    apply last_char_none in Hl. discriminate.
Qed.

Lemma rstrip_chars_id (s : string) : last_ok p s = true -> rstrip_chars p s = s.
Proof.
  unfold last_ok. induction s as [|c s IH]; [reflexivity|].
  rewrite last_char_cons. simpl. destruct (last_char s) as [d|] eqn:Hl.
  - intros H. rewrite (IH H). destruct s; [discriminate | reflexivity].
  - apply last_char_none in Hl. subst s. simpl. intros H.
    destruct (p c); [discriminate | reflexivity].
Qed.

Lemma rstrip_chars_head (s : string) :
  head_ok p s = true -> head_ok p (rstrip_chars p s) = true.
Proof.
  destruct s as [|c s]; [reflexivity|]. unfold head_ok. cbn [head_char rstrip_chars].
  intros H.
  destruct (rstrip_chars p s); [|exact H].
  destruct (p c) eqn:Hc; cbn [head_char]; [reflexivity | rewrite Hc; reflexivity].
Qed.

Lemma lstrip_chars_all (q : ascii -> bool) (s : string) :
  all_chars q s = true -> all_chars q (lstrip_chars p s) = true.
Proof.
  induction s as [|c s IH]; simpl; [reflexivity|].
  destruct (p c); [|trivial]. rewrite andb_true_iff. intros [_ H]. auto.
Qed.

Lemma rstrip_chars_all (q : ascii -> bool) (s : string) :
  all_chars q s = true -> all_chars q (rstrip_chars p s) = true.
Proof.
  induction s as [|c s IH]; simpl; [reflexivity|].
  rewrite andb_true_iff. intros [Hc Hs]. specialize (IH Hs).
  destruct (rstrip_chars p s).
  - destruct (p c); simpl; [reflexivity | rewrite Hc; reflexivity].
  - simpl in *. rewrite Hc. exact IH.
Qed.

End Strip.

Lemma strip_trimmed (s : string) : trimmed (strip s) = true.
Proof.
  unfold trimmed, strip. rewrite rstrip_chars_last, andb_true_r.
  apply rstrip_chars_head, lstrip_chars_head.
Qed.

Lemma strip_id (s : string) : trimmed s = true -> strip s = s.
Proof.
  unfold trimmed, strip. rewrite andb_true_iff. intros [Hh Hl].
  rewrite lstrip_chars_id by exact Hh. apply rstrip_chars_id. exact Hl.
Qed.

Lemma strip_all (q : ascii -> bool) (s : string) :
  all_chars q s = true -> all_chars q (strip s) = true.
Proof. intros H. apply rstrip_chars_all, lstrip_chars_all, H. Qed.

Lemma strip_fixed_trimmed (s : string) : strip s = s -> trimmed s = true.
Proof. intros H. rewrite <- H. apply strip_trimmed. Qed.

(** *** The last character *)

Lemma last_char_app (a b : string) :
  b <> "" -> last_char (a ++ b) = last_char b.
Proof.
  intros Hb. induction a as [|c a IH]; [reflexivity|].
  cbn [append]. rewrite last_char_cons, IH.
  destruct (last_char b) eqn:Hl; [reflexivity|].
  apply last_char_none in Hl. contradiction.
Qed.

Lemma last_ok_app (p : ascii -> bool) (a b : string) :
  b <> "" -> last_ok p (a ++ b) = last_ok p b.
Proof. intros Hb. unfold last_ok. rewrite last_char_app by exact Hb. reflexivity. Qed.

Lemma append_empty_r (a : string) : (a ++ "")%string = a.
Proof. induction a as [|c a IH]; simpl; [|rewrite IH]; reflexivity. Qed.

Lemma last_char_lower (s : string) :
  last_char (lower s) = option_map lower_char (last_char s).
Proof.
  induction s as [|c s IH]; [reflexivity|].
  cbn [lower]. rewrite !last_char_cons, IH. destruct (last_char s); reflexivity.
Qed.

Lemma last_ok_lower (s : string) : last_ok isspace (lower s) = last_ok isspace s.
Proof.
  unfold last_ok. rewrite last_char_lower. destruct (last_char s); simpl; [|reflexivity].
  rewrite isspace_lower_char. reflexivity.
Qed.

Lemma head_ok_lower (s : string) : head_ok isspace (lower s) = head_ok isspace s.
Proof.
  destruct s as [|c s]; [reflexivity|]. unfold head_ok. simpl.
  rewrite isspace_lower_char. reflexivity.
Qed.

Lemma lower_empty (s : string) : lower s = "" -> s = "".
Proof. destruct s; [reflexivity | discriminate]. Qed.

Lemma lstrip_chars_last_char (p : ascii -> bool) (s : string) :
  lstrip_chars p s <> "" -> last_char (lstrip_chars p s) = last_char s.
Proof.
  induction s as [|c s IH]; [reflexivity|]. cbn [lstrip_chars].
  destruct (p c); [|reflexivity]. intros H. rewrite (IH H), last_char_cons.
  destruct (last_char s) eqn:Hl; [reflexivity|].
  apply last_char_none in Hl. subst s. contradiction.
Qed.

(** ** The two line keys *)

(** C5, as the claim states it, fails.  Take as the raw line name that
    corresponds to an identifier the fixed word, a space and the
    identifier.  For the identifier [01] the geometry loader removes the
    zero and the ridership loader keeps it; for an identifier with a letter
    outside ASCII the ridership loader transliterates and the geometry
    loader does not; for an identifier that ends with a space, or is empty,
    the ridership loader strips and the geometry loader does not.  Nor do
    the key spaces coincide: the ridership key [line 1] is the key of no
    identifier. *)
Lemma line_keys_disagree :
  (kml_linea_clean "01" = "linea 1" /\ stc_linea_clean "Linea 01" = "linea 01")
  /\ (kml_linea_clean (chr 241) = ("linea " ++ chr 241)%string
      /\ stc_linea_clean ("Linea " ++ chr 241) = "linea n")
  /\ (kml_linea_clean "1 " = "linea 1 " /\ stc_linea_clean "Linea 1 " = "linea 1")
  /\ (kml_linea_clean "" = "linea " /\ stc_linea_clean "Linea " = "linea")
  /\ (stc_linea_clean "Line 1" = "line 1"
      /\ ~ exists x, kml_linea_clean x = "line 1").
Proof.
  repeat split; try (vm_compute; reflexivity).
  intros [x Hx]. unfold kml_linea_clean in Hx. discriminate.
Qed.

(** C5, amended.  For every raw line identifier that is ASCII, has no
    whitespace around it (it is the stripped text of a cell) and is not made
    of zeros only, the key of the geometry loader (leading zeros removed,
    lower case, after the word [linea]) is the key that the ridership
    loader derives for the raw line name made of that word, in any letter
    case, and the identifier without its leading zeros; this is the
    identifier itself when it has no leading zero. *)
Theorem line_keys_agree (word x : string) :
  lower word = "linea " ->
  is_ascii x = true -> strip x = x -> lstrip_zeros x <> "" ->
  kml_linea_clean x = stc_linea_clean (word ++ lstrip_zeros x)
  /\ (lstrip_zeros x = x -> kml_linea_clean x = stc_linea_clean (word ++ x)).
Proof.
  intros Hword Hascii Hstrip Hne.
  assert (Hkey : kml_linea_clean x = stc_linea_clean (word ++ lstrip_zeros x)).
  { unfold kml_linea_clean, stc_linea_clean.
    set (z := lstrip_zeros x) in *.
    rewrite lower_app, Hword.
    assert (Hz : is_ascii (lower z) = true).
    { apply lower_is_ascii. apply lstrip_chars_all. exact Hascii. }
    assert (Hlz : lower z <> "") by (intros H; apply Hne, lower_empty, H).
    rewrite strip_id.
    - apply eq_sym, unidecode_ascii. unfold is_ascii. rewrite all_chars_app.
      fold (is_ascii (lower z)). rewrite Hz. reflexivity.
    - unfold trimmed. rewrite last_ok_app by exact Hlz. cbn [head_ok head_char append].
      rewrite last_ok_lower. unfold last_ok, z, lstrip_zeros.
      rewrite lstrip_chars_last_char by exact Hne.
      apply strip_fixed_trimmed in Hstrip. unfold trimmed in Hstrip.
      apply andb_true_iff in Hstrip. exact (proj2 Hstrip). }
  split; [exact Hkey|]. intros Hz. rewrite Hz in Hkey. exact Hkey.
Qed.

Lemma line_keys_agree_witness :
  kml_linea_clean "0A" = stc_linea_clean "LINEA A"
  /\ kml_linea_clean "12" = stc_linea_clean "Linea 12".
Proof.
  split.
  - apply (line_keys_agree "LINEA " "0A"); [reflexivity.. | discriminate].
  - apply (line_keys_agree "Linea " "12"); [reflexivity.. | discriminate | reflexivity].
Defined.

(** ** Keys in normal form *)

Lemma plain_translit_ok (c : ascii) :
  plain_char c = true -> translit_ok (lower_char c) = true.
Proof.
  unfold plain_char, translit_ok. rewrite isspace_lower_char. trivial.
Qed.

Lemma plain_lower (x : string) : plain x = true -> all_chars translit_ok (lower x) = true.
Proof.
  unfold plain. induction x as [|c x IH]; simpl; [reflexivity|].
  rewrite !andb_true_iff. intros [Hc Hx]. split; [apply plain_translit_ok, Hc | auto].
Qed.

Lemma ascii_plain (x : string) : is_ascii x = true -> plain x = true.
Proof. apply all_chars_impl. exact ascii_char_plain. Qed.

Lemma unidecode_lowered (s : string) :
  all_chars translit_ok s = true -> all_chars lowered_char (unidecode s) = true.
Proof.
  induction s as [|d s IH]; simpl; [reflexivity|].
  rewrite andb_true_iff. intros [Hd Hs]. rewrite all_chars_app, (IH Hs), andb_true_r.
  unfold translit_ok in Hd. apply andb_true_iff in Hd. exact (proj1 Hd).
Qed.

Lemma translit_solid (d : ascii) :
  translit_ok d = true -> isspace d = false -> solid (unidecode_char d) = true.
Proof.
  unfold translit_ok. rewrite andb_true_iff. intros [_ H] Hd. rewrite Hd in H. exact H.
Qed.

Lemma solid_parts (u : string) :
  solid u = true -> u <> "" /\ head_ok isspace u = true /\ last_ok isspace u = true.
Proof.
  unfold solid. rewrite !andb_true_iff, negb_true_iff. intros [[H1 H2] H3].
  repeat split; auto. intros ->. discriminate.
Qed.

Lemma unidecode_head (s : string) :
  all_chars translit_ok s = true -> head_ok isspace s = true ->
  head_ok isspace (unidecode s) = true.
Proof.
  destruct s as [|d s]; [reflexivity|]. cbn [all_chars unidecode].
  rewrite andb_true_iff. intros [Hd _]. unfold head_ok at 1. cbn [head_char].
  rewrite negb_true_iff. intros Hsp.
  destruct (solid_parts _ (translit_solid d Hd Hsp)) as [Hne [Hh _]].
  destruct (unidecode_char d) as [|c u]; [contradiction|]. exact Hh.
Qed.

Lemma unidecode_last (s : string) :
  all_chars translit_ok s = true -> last_ok isspace s = true -> s <> "" ->
  unidecode s <> "" /\ last_ok isspace (unidecode s) = true.
Proof.
  induction s as [|d s IH]; [congruence|]. cbn [all_chars unidecode].
  rewrite andb_true_iff. intros [Hd Hs] Hlast _.
  destruct s as [|e s].
  - cbn [unidecode]. rewrite append_empty_r.
    unfold last_ok in Hlast. cbn [last_char] in Hlast. rewrite negb_true_iff in Hlast.
    destruct (solid_parts _ (translit_solid d Hd Hlast)) as [Hne [_ Hl]]. auto.
  - assert (Hlast' : last_ok isspace (String e s) = true).
    { unfold last_ok in *. rewrite last_char_cons in Hlast.
      destruct (last_char (String e s)) eqn:Hl; [exact Hlast|].
      apply last_char_none in Hl. discriminate. }
    destruct (IH Hs Hlast') as [Hne Hl]; [discriminate|].
    split.
    + intros H. apply Hne. destruct (unidecode_char d); [exact H | discriminate].
    + rewrite last_ok_app by exact Hne. exact Hl.
Qed.

Lemma unidecode_trimmed (s : string) :
  all_chars translit_ok s = true -> trimmed s = true -> trimmed (unidecode s) = true.
Proof.
  unfold trimmed. rewrite !andb_true_iff. intros Hall [Hh Hl]. split.
  - apply unidecode_head; assumption.
  - destruct s as [|d s]; [reflexivity|].
    apply (unidecode_last (String d s)); auto. discriminate.
Qed.

(** Lower-casing, stripping and transliterating a plain name gives a key
    in normal form. *)
Lemma stc_linea_clean_normal (x : string) :
  plain x = true -> normal_key (stc_linea_clean x) = true.
Proof.
  intros Hx. unfold normal_key, stc_linea_clean.
  assert (Hall : all_chars translit_ok (strip (lower x)) = true)
    by (apply strip_all, plain_lower, Hx).
  rewrite unidecode_is_ascii, unidecode_lowered by exact Hall.
  apply unidecode_trimmed; [exact Hall | apply strip_trimmed].
Qed.

Lemma stc_linea_clean_fixed (k : string) :
  normal_key k = true -> stc_linea_clean k = k.
Proof.
  unfold normal_key, stc_linea_clean. rewrite !andb_true_iff. intros [[Ha Hl] Ht].
  rewrite lower_lowered by exact Hl. rewrite strip_id by exact Ht.
  apply unidecode_ascii, Ha.
Qed.

(** ** The filter lower-cases its target and nothing more *)

(** C10, as the claim states it, fails for whitespace: the ridership
    loader derives the key [linea 1 ], with a space at its end, from a name
    that ends with a no-break space and a control character (the first is
    transliterated to a space after the stripping, the second to nothing),
    and the target [linea 1 ], whose lower-case form has that space,
    selects the record. *)
Lemma untrimmed_target_selects_its_key :
  stc_linea_clean ("Linea 1" ++ chr 160 ++ chr 128) = "linea 1 "
  /\ trimmed (lower "linea 1 ") = false
  /\ map data
       (filter_data
          [month_row "2024-01" (stc_linea_clean ("Linea 1" ++ chr 160 ++ chr 128))
                     "balderas" 8 None]
          "linea 1 "
          {| year := 2024; month := 1; day := 1 |}
          {| year := 2024; month := 1; day := 31 |})
     = [ ("2024-01", "linea 1 ", "balderas", 8%Z, None, None) ].
Proof. repeat split; vm_compute; reflexivity. Qed.

(** C10, amended.  Let the line keys of the dataset be keys that the
    ridership loader derives.  A target whose lower-case form has a
    character outside ASCII (a letter with a diacritic) matches no row,
    because the filter only lower-cases it and the keys are ASCII.  A
    target whose lower-case form has whitespace at an end matches no row
    when the keys are derived from plain names, which gives keys without
    surrounding whitespace.  In both cases the result is empty, also when
    the dataset has rows whose key is the normal form of the target. *)
Theorem unnormalised_target_selects_nothing (df : list Month.row) (linea : string)
  (start_date end_date : date) :
  (forall r, In r df -> exists raw, Month.linea_clean r = stc_linea_clean raw) ->
  (is_ascii (lower linea) = false ->
   filter_data df linea start_date end_date = [])
  /\ ((forall r, In r df ->
         exists raw, plain raw = true /\ Month.linea_clean r = stc_linea_clean raw) ->
      trimmed (lower linea) = false ->
      filter_data df linea start_date end_date = []).
Proof.
  intros Hkeys. split.
  - intros Htarget. apply filter_data_nil. intros r Hr.
    destruct (Hkeys r Hr) as [raw Hkey].
    unfold in_range.
    destruct (String.eqb_spec (Month.linea_clean r) (lower linea)) as [Heq|];
      [|reflexivity].
    exfalso. rewrite <- Heq, Hkey in Htarget. unfold stc_linea_clean in Htarget.
    rewrite unidecode_is_ascii in Htarget. discriminate.
  - intros Hplain Htarget. apply filter_data_nil. intros r Hr.
    destruct (Hplain r Hr) as [raw [Hraw Hkey]].
    pose proof (stc_linea_clean_normal raw Hraw) as Hn. rewrite <- Hkey in Hn.
    unfold in_range.
    destruct (String.eqb_spec (Month.linea_clean r) (lower linea)) as [Heq|];
      [|reflexivity].
    exfalso. rewrite Heq in Hn. unfold normal_key in Hn.
    repeat rewrite andb_true_iff in Hn. destruct Hn as [_ Ht]. congruence.
Qed.

Lemma unnormalised_target_selects_nothing_witness :
  stc_linea_clean (" L" ++ chr 237 ++ "nea 1") = "linea 1"
  /\ In "linea 1" (map Month.linea_clean df_example)
  /\ filter_data df_example (" L" ++ chr 237 ++ "nea 1")
       {| year := 2023; month := 1; day := 1 |}
       {| year := 2024; month := 12; day := 31 |} = []
  /\ filter_data df_example "linea 1 "
       {| year := 2023; month := 1; day := 1 |}
       {| year := 2024; month := 12; day := 31 |} = [].
Proof.
  assert (Hkeys : forall r, In r df_example ->
                    exists raw, Month.linea_clean r = stc_linea_clean raw).
  { intros r [<-|[<-|[<-|[]]]];
      [exists "Linea 1" | exists " linea 2" | exists "LINEA 1 "]; reflexivity. }
  split; [reflexivity|]. split; [left; reflexivity|].
  split.
  - exact (proj1 (unnormalised_target_selects_nothing
                    df_example (" L" ++ chr 237 ++ "nea 1") _ _ Hkeys) eq_refl).
  - refine (proj2 (unnormalised_target_selects_nothing
                     df_example "linea 1 " _ _ Hkeys) _ eq_refl).
    intros r [<-|[<-|[<-|[]]]];
      [exists "Linea 1" | exists " linea 2" | exists "LINEA 1 "]; split; reflexivity.
Defined.

(** ** Occurrences of a substring *)

Local Open Scope string_scope.

Lemma append_assoc (a b c : string) : (a ++ b) ++ c = a ++ (b ++ c).
Proof. induction a as [|x a IH]; simpl; [|rewrite IH]; reflexivity. Qed.

Lemma append_length (a b : string) :
  String.length (a ++ b) = (String.length a + String.length b)%nat.
Proof. induction a as [|x a IH]; simpl; [|rewrite IH]; reflexivity. Qed.

Lemma append_cancel_l (a b c : string) : a ++ b = a ++ c -> b = c.
Proof. induction a as [|x a IH]; simpl; intros H; [exact H|]. inversion H. auto. Qed.

Lemma prefix_spec (p s : string) : prefix p s = true <-> exists w, s = p ++ w.
Proof.
  revert s. induction p as [|x p IH]; intros s.
  - destruct s; simpl; split; eauto.
  - destruct s as [|y s]; simpl.
    + split; [discriminate | intros [w H]; discriminate].
    + destruct (ascii_dec x y) as [->|Hne].
      * rewrite IH. split; intros [w H]; exists w; [rewrite H; reflexivity|].
        inversion H. reflexivity.
      * split; [discriminate|]. intros [w H]. inversion H. congruence.
Qed.

Lemma contains_spec (p s : string) :
  contains p s = true <-> exists a b, s = a ++ p ++ b.
Proof.
  induction s as [|y s IH]; cbn [contains].
  - rewrite orb_false_r, prefix_spec. split.
    + intros [w H]. exists "", w. exact H.
    + intros [a [b H]]. destruct a; [exists b; exact H | discriminate].
  - rewrite orb_true_iff, prefix_spec, IH. split.
    + intros [[w H]|[a [b H]]].
      * exists "", w. exact H.
      * exists (String y a), b. rewrite H. reflexivity.
    + intros [[|x a] [b H]].
      * left. exists b. exact H.
      * right. inversion H. exists a, b. reflexivity.
Qed.

Lemma border_spec (a b : string) :
  border a b = true <-> exists u t w, t <> "" /\ a = u ++ t /\ b = t ++ w.
Proof.
  induction a as [|x a IH]; cbn [border].
  - split; [discriminate|]. intros [u [t [w [Ht [H _]]]]].
    destruct u; destruct t; try discriminate. contradiction.
  - rewrite orb_true_iff, IH. split.
    + intros [H|[u [t [w [Ht [Ha Hb]]]]]].
      * apply prefix_spec in H. destruct H as [w H].
        exists "", (String x a), w. repeat split; [discriminate | exact H].
      * exists (String x u), t, w. subst. repeat split; auto.
    + intros [[|y u] [t [w [Ht [Ha Hb]]]]].
      * left. simpl in Ha. subst.
        apply prefix_spec. exists w. reflexivity.
      * right. inversion Ha. exists u, t, w. auto.
Qed.

(** Two ways of cutting the same string. *)
Lemma append_eq_split (a b c d : string) :
  a ++ b = c ++ d ->
  (exists t, a = c ++ t /\ d = t ++ b) \/ (exists t, c = a ++ t /\ b = t ++ d).
Proof.
  revert c. induction a as [|x a IH]; intros c H.
  - right. exists c. auto.
  - destruct c as [|y c].
    + left. exists (String x a). auto.
    + inversion H as [[Hxy H']]. destruct (IH c H') as [[t [H1 H2]]|[t [H1 H2]]].
      * left. exists t. subst. auto.
      * right. exists t. subst. auto.
Qed.

(** An occurrence of [p] in [u ++ new ++ v] that cannot overlap [new] lies
    within [u] or within [v]. *)
Lemma occurrence_split (new p u v : string) :
  no_overlap new p = true ->
  contains p (u ++ new ++ v) = true ->
  contains p u = true \/ contains p v = true.
Proof.
  unfold no_overlap. rewrite !andb_true_iff, !negb_true_iff.
  intros [[[Hnp Hpn] Hin] Hout] Hocc.
  apply contains_spec in Hocc. destruct Hocc as [a [b Heq]].
  destruct (append_eq_split _ _ _ _ Heq) as [[t [Hu Hp]]|[t [Ha Hn]]].
  - (* the occurrence starts within [u] *)
    destruct (append_eq_split _ _ _ _ Hp) as [[t' [Hp' Hnv]]|[t' [Ht Hb]]].
    + destruct t' as [|c t'].
      * left. apply contains_spec. exists a, "". rewrite Hu, Hp', !append_empty_r.
        reflexivity.
      * exfalso. symmetry in Hnv.
        destruct (append_eq_split _ _ _ _ Hnv) as [[t2 [H1 H2]]|[t2 [H1 H2]]].
        -- (* new ends within the occurrence *)
           assert (contains new p = true); [|congruence].
           apply contains_spec. exists t, t2. rewrite Hp', H1. reflexivity.
        -- (* the occurrence ends within new *)
           assert (border p new = true); [|congruence].
           apply border_spec. exists t, (String c t'), t2.
           repeat split; [discriminate | exact Hp' | exact H1].
    + left. apply contains_spec. exists a, t'. rewrite Hu, Ht. reflexivity.
  - (* the occurrence starts at or after the start of [new] *)
    destruct (append_eq_split _ _ _ _ Hn) as [[t' [Hnew Hpb]]|[t' [Ht Hv]]].
    + destruct t' as [|c t'].
      * right. apply contains_spec. exists "", b. symmetry. exact Hpb.
      * exfalso.
        destruct (append_eq_split _ _ _ _ Hpb) as [[t2 [H1 H2]]|[t2 [H1 H2]]].
        -- (* the occurrence starts within new and goes on *)
           assert (border new p = true); [|congruence].
           apply border_spec. exists t, (String c t'), t2.
           repeat split; [discriminate | exact Hnew | exact H1].
        -- (* the occurrence lies within new *)
           assert (contains p new = true); [|congruence].
           apply contains_spec. exists t, t2. rewrite Hnew, H1. reflexivity.
    + right. apply contains_spec. exists t', b. exact Hv.
Qed.

Lemma contains_app_l (p a b : string) :
  contains p a = true -> contains p (a ++ b) = true.
Proof.
  rewrite !contains_spec. intros [u [v ->]]. exists u, (v ++ b).
  rewrite !append_assoc. reflexivity.
Qed.

Lemma contains_app_r (p a b : string) :
  contains p b = true -> contains p (a ++ b) = true.
Proof.
  rewrite !contains_spec. intros [u [v ->]]. exists (a ++ u), v.
  rewrite !append_assoc. reflexivity.
Qed.

Lemma append_not_empty (a b : string) : a <> "" -> a ++ b <> "".
Proof. destruct a; [congruence | discriminate]. Qed.

Lemma contains_empty (p : string) : p <> "" -> contains p "" = false.
Proof. destruct p; [congruence | reflexivity]. Qed.

Lemma string_length_ind (P : string -> Prop) :
  (forall s, (forall t, (String.length t < String.length s)%nat -> P t) -> P s) ->
  forall s, P s.
Proof.
  intros H s. remember (String.length s) as n eqn:Hn. revert s Hn.
  induction n as [n IH] using lt_wf_ind. intros s ->.
  apply H. intros t Ht. apply (IH _ Ht). reflexivity.
Qed.

(** ** [replace] *)

Section Replace.
Variables old new : string.
Hypothesis old_not_empty : old <> "".

Lemma replace_from_skip (w rest : string) :
  replace_from old new (String.length w) (w ++ rest) = replace_from old new 0 rest.
Proof. induction w as [|c w IH]; [destruct rest; reflexivity | exact IH]. Qed.

(** Either [old] does not occur and the string is left as it is, or the
    string is cut at the first occurrence, which is replaced, and the rest
    is treated in the same way. *)
Lemma replace_from_decompose (s : string) :
  (contains old s = false /\ replace_from old new 0 s = s)
  \/ (exists g s', s = g ++ old ++ s' /\ contains old g = false
                   /\ replace_from old new 0 s = g ++ new ++ replace_from old new 0 s').
Proof.
  induction s as [|c s IH].
  - left. split; [apply contains_empty, old_not_empty | reflexivity].
  - cbn [replace_from contains]. destruct (prefix old (String c s)) eqn:Hp.
    + right. apply prefix_spec in Hp. destruct Hp as [rest Hrest].
      destruct old as [|x old'] eqn:Hold; [congruence|].
      inversion Hrest as [[Hx Hs]]. exists "", rest.
      split; [reflexivity|]. split; [reflexivity|].
      cbn [append String.length].
      replace (S (String.length old') - 1)%nat with (String.length old') by lia.
      f_equal. rewrite <- Hold. apply replace_from_skip.
    + destruct IH as [[Hc Hr]|[g [s' [Hs [Hg Hr]]]]].
      * left. rewrite Hc, Hr. auto.
      * right. exists (String c g), s'. split; [rewrite Hs; reflexivity|]. split.
        -- cbn [contains]. rewrite Hg, orb_false_r.
           apply not_true_iff_false. intros H. apply prefix_spec in H.
           destruct H as [w Hw]. apply not_true_iff_false in Hp. apply Hp.
           apply prefix_spec. exists (w ++ old ++ s'). rewrite Hs.
           change (String c (g ++ old ++ s')) with (String c g ++ old ++ s').
           rewrite Hw, append_assoc. reflexivity.
        -- rewrite Hr. reflexivity.
Qed.

Lemma replace_from_fixed (s : string) :
  contains old s = false -> replace_from old new 0 s = s.
Proof.
  intros Hc. destruct (replace_from_decompose s) as [[_ H]|[g [s' [Hs _]]]]; [exact H|].
  exfalso. apply not_true_iff_false in Hc. apply Hc.
  apply contains_spec. exists g, s'. exact Hs.
Qed.

(** Replacing [old] by [new] creates no occurrence of a string [p] that
    cannot overlap [new]: if [p] is [old] itself, or does not occur before,
    it does not occur after. *)
Lemma replace_from_avoids (p : string) :
  no_overlap new p = true ->
  forall s, p = old \/ contains p s = false ->
            contains p (replace_from old new 0 s) = false.
Proof.
  intros Hno s. induction s as [s IH] using string_length_ind. intros Hp.
  destruct (replace_from_decompose s) as [[Hc Hr]|[g [s' [Hs [Hg Hr]]]]].
  - rewrite Hr. destruct Hp as [->|Hp]; assumption.
  - rewrite Hr. apply not_true_iff_false. intros Hocc.
    apply (occurrence_split new p g _ Hno) in Hocc. destruct Hocc as [Hocc|Hocc].
    + destruct Hp as [->|Hp]; [congruence|].
      apply not_true_iff_false in Hp. apply Hp. rewrite Hs.
      apply contains_app_l. exact Hocc.
    + rewrite IH in Hocc; [discriminate | |].
      * rewrite Hs, !append_length. destruct old; [congruence|]. simpl. lia.
      * destruct Hp as [Hp|Hp]; [left; exact Hp|]. right.
        apply not_true_iff_false. intros H. apply not_true_iff_false in Hp. apply Hp.
        rewrite Hs. apply contains_app_r, contains_app_r. exact H.
Qed.

Lemma replace_from_all (q : ascii -> bool) (s : string) (k : nat) :
  all_chars q new = true -> all_chars q s = true ->
  all_chars q (replace_from old new k s) = true.
Proof.
  intros Hnew. revert k. induction s as [|c s IH]; intros k; [reflexivity|].
  cbn [all_chars replace_from]. rewrite andb_true_iff. intros [Hc Hs].
  destruct k as [|k]; [|apply IH; exact Hs].
  destruct (prefix old (String c s)).
  - rewrite all_chars_app, Hnew. apply IH. exact Hs.
  - cbn [all_chars]. rewrite Hc. apply IH. exact Hs.
Qed.

Hypothesis new_solid : solid new = true.

Lemma replace_from_head (s : string) :
  head_ok isspace s = true -> head_ok isspace (replace_from old new 0 s) = true.
Proof.
  destruct (solid_parts _ new_solid) as [Hne [Hh _]].
  destruct s as [|c s]; [reflexivity|]. cbn [replace_from].
  destruct (prefix old (String c s)); [|trivial].
  intros _. destruct new; [congruence|]. exact Hh.
Qed.

Lemma replace_from_last (s : string) :
  last_ok isspace s = true -> last_ok isspace (replace_from old new 0 s) = true.
Proof.
  destruct (solid_parts _ new_solid) as [Hne [_ Hl]].
  induction s as [s IH] using string_length_ind. intros Hs.
  destruct (replace_from_decompose s) as [[_ Hr]|[g [s' [Heq [_ Hr]]]]].
  - rewrite Hr. exact Hs.
  - rewrite Hr. rewrite last_ok_app by (apply append_not_empty, Hne).
    destruct s' as [|c s'].
    + cbn [replace_from]. rewrite append_empty_r. exact Hl.
    + assert (Hout : replace_from old new 0 (String c s') <> "").
      { cbn [replace_from]. destruct (prefix old (String c s')); [|discriminate].
        apply append_not_empty, Hne. }
      rewrite last_ok_app by exact Hout. apply IH.
      * rewrite Heq, !append_length. destruct old; [congruence|]. simpl. lia.
      * rewrite Heq, !last_ok_app in Hs; [exact Hs | discriminate |].
        apply append_not_empty, old_not_empty.
Qed.

End Replace.

(** ** The name normaliser *)

Lemma apply_replacements_cons (rule : string * string) (rest : list (string * string))
  (s : string) :
  apply_replacements (rule :: rest) s
  = apply_replacements rest (replace_if_present rule s).
Proof. destruct rule as [old new]. reflexivity. Qed.

Lemma apply_replacements_app (t1 t2 : list (string * string)) (s : string) :
  apply_replacements (t1 ++ t2) s = apply_replacements t2 (apply_replacements t1 s).
Proof.
  revert s. induction t1 as [|rule t1 IH]; intros s; [reflexivity|].
  cbn [List.app]. rewrite !apply_replacements_cons. apply IH.
Qed.

Lemma replace_if_present_eq (rule : string * string) (s : string) :
  fst rule <> "" ->
  replace_if_present rule s = replace_from (fst rule) (snd rule) 0 s.
Proof.
  destruct rule as [old new]. cbn [fst snd]. intros Hne. unfold replace_if_present.
  cbn [fst snd]. destruct (contains old s) eqn:Hc.
  - unfold replace. destruct old; [congruence | reflexivity].
  - symmetry. apply replace_from_fixed; assumption.
Qed.

Lemma eqb_empty_false (s : string) : negb (String.eqb s "") = true -> s <> "".
Proof. rewrite negb_true_iff. apply String.eqb_neq. Qed.

Lemma apply_replacements_avoids (p : string) (table : list (string * string))
  (s : string) :
  rules_avoid p table = true -> contains p s = false ->
  contains p (apply_replacements table s) = false.
Proof.
  unfold rules_avoid. revert s. induction table as [|rule table IH]; intros s; [trivial|].
  cbn [forallb]. rewrite !andb_true_iff. intros [[Hne Hno] Htable] Hs.
  rewrite apply_replacements_cons. apply IH; [exact Htable|].
  apply eqb_empty_false in Hne. rewrite replace_if_present_eq by exact Hne.
  apply replace_from_avoids; auto.
Qed.

(** The alias of a rule that cannot overlap its own replacement, nor the
    replacements of the rules after it, is gone after the loop. *)
Lemma alias_removed (before after : list (string * string)) (old new s : string) :
  rules_avoid old ((old, new) :: after) = true ->
  contains old (apply_replacements (before ++ (old, new) :: after) s) = false.
Proof.
  intros Havoid. rewrite apply_replacements_app, apply_replacements_cons.
  cbn [rules_avoid forallb fst snd] in Havoid.
  apply andb_true_iff in Havoid. destruct Havoid as [Hself Hafter].
  apply andb_true_iff in Hself. destruct Hself as [Hne Hno].
  apply eqb_empty_false in Hne.
  apply apply_replacements_avoids; [exact Hafter|].
  rewrite replace_if_present_eq by exact Hne.
  apply replace_from_avoids; auto.
Qed.

Lemma apply_replacements_normal (table : list (string * string)) (s : string) :
  rules_normal table = true -> normal_key s = true ->
  normal_key (apply_replacements table s) = true.
Proof.
  unfold rules_normal. revert s. induction table as [|rule table IH]; intros s; [trivial|].
  cbn [forallb]. rewrite !andb_true_iff. intros [[[[Hne Ha] Hl] Hsolid] Htable] Hs.
  rewrite apply_replacements_cons. apply IH; [exact Htable|].
  apply eqb_empty_false in Hne. rewrite replace_if_present_eq by exact Hne.
  unfold normal_key, trimmed, is_ascii in *. repeat rewrite andb_true_iff in Hs.
  destruct Hs as [[Hsa Hsl] [Hsh Hst]].
  rewrite !replace_from_all, replace_from_head, replace_from_last; auto.
Qed.

Lemma apply_replacements_fixed (table : list (string * string)) (s : string) :
  (forall rule, In rule table -> contains (fst rule) s = false) ->
  apply_replacements table s = s.
Proof.
  induction table as [|rule table IH]; intros H; [reflexivity|].
  rewrite apply_replacements_cons. unfold replace_if_present.
  rewrite (H rule (or_introl eq_refl)). apply IH. intros r Hr. apply H. right. exact Hr.
Qed.

Lemma clean_station_name_normal (x : string) :
  plain x = true -> normal_key (clean_station_name x) = true.
Proof.
  intros Hx. unfold clean_station_name.
  apply apply_replacements_normal; [reflexivity|]. apply stc_linea_clean_normal, Hx.
Qed.

(** C6, as the claim states it, fails: the replacement of the third alias
    is the beginning of the alias, so that replacing it in front of a second
    copy of the rest writes the alias again, and a second pass replaces
    it. *)
Lemma clean_station_name_not_idempotent :
  clean_station_name "ninos heroes/poder judicial cdmx/poder judicial cdmx"
  = "ninos heroes/poder judicial cdmx"
  /\ clean_station_name
       (clean_station_name "ninos heroes/poder judicial cdmx/poder judicial cdmx")
     = "ninos heroes"
  /\ clean_station_name
       (clean_station_name "ninos heroes/poder judicial cdmx/poder judicial cdmx")
     <> clean_station_name "ninos heroes/poder judicial cdmx/poder judicial cdmx".
Proof. repeat split. vm_compute. discriminate. Qed.

(** The normaliser lower-cases before it transliterates: a sign that is
    written with a capital is not a fixed point either. *)
Example clean_station_name_cent :
  clean_station_name (chr 162) = "C/"
  /\ clean_station_name (clean_station_name (chr 162)) = "c/".
Proof. split; reflexivity. Qed.

(** C6, amended.  On every plain name (ASCII and the Latin-1 letters, see
    [plain_char]) whose normal form does not contain the alias
    [ninos heroes/poder judicial cdmx], the normaliser is idempotent.  The
    other four aliases never survive the loop, and the result is ASCII,
    lower case and stripped, so that a second pass changes nothing. *)
Theorem clean_station_name_idempotent (x : string) :
  plain x = true ->
  contains reentrant_alias (clean_station_name x) = false ->
  clean_station_name (clean_station_name x) = clean_station_name x.
Proof.
  intros Hx Halias.
  pose proof (clean_station_name_normal x Hx) as Hnormal.
  set (c := clean_station_name x) in *.
  unfold clean_station_name at 1. fold (stc_linea_clean c).
  rewrite stc_linea_clean_fixed by exact Hnormal.
  apply apply_replacements_fixed. intros rule Hrule.
  unfold c, clean_station_name. cbn [replacements In] in Hrule.
  destruct Hrule as [<-|[<-|[<-|[<-|[<-|[]]]]]]; cbn [fst].
  - apply (alias_removed [] _ "terminal aerea" "terminal area"). reflexivity.
  - apply (alias_removed [_] _ "lazaro cardenas" "l. cardenas"). reflexivity.
  - exact Halias.
  - apply (alias_removed [_; _; _] _ "uam azcapotzalco" "uam-azcapotzalco"). reflexivity.
  - apply (alias_removed [_; _; _; _] _ "mixhiuca" "mixiuhca"). reflexivity.
Qed.

Lemma clean_station_name_idempotent_witness :
  clean_station_name
    (clean_station_name (" L" ++ chr 193 ++ "ZARO C" ++ chr 225 ++ "rdenas  "))
  = "l. cardenas".
Proof.
  rewrite clean_station_name_idempotent; reflexivity.
Defined.

(** * Further properties of the code *)

(** ** The name normaliser on every input *)

Lemma apply_replacements_all (q : ascii -> bool) (table : list (string * string))
  (s : string) :
  forallb (fun rule => negb (String.eqb (fst rule) "") && all_chars q (snd rule)) table
  = true ->
  all_chars q s = true -> all_chars q (apply_replacements table s) = true.
Proof.
  revert s. induction table as [|rule table IH]; intros s; [trivial|].
  cbn [forallb]. rewrite !andb_true_iff. intros [[Hne Hq] Htable] Hs.
  rewrite apply_replacements_cons. apply IH; [exact Htable|].
  apply eqb_empty_false in Hne. rewrite replace_if_present_eq by exact Hne.
  apply replace_from_all; assumption.
Qed.

(** X1.  Whatever the name, its normalised form is ASCII: the
    transliteration leaves no character outside ASCII and the aliases put
    none back. *)
Theorem clean_station_name_is_ascii (name : string) :
  is_ascii (clean_station_name name) = true.
Proof.
  unfold clean_station_name, is_ascii.
  apply apply_replacements_all; [reflexivity|]. apply unidecode_is_ascii.
Qed.

Lemma lower_lower (s : string) : lower (lower s) = lower s.
Proof. apply lower_lowered, lower_is_lowered. Qed.

Lemma lstrip_lower (s : string) :
  lstrip_chars isspace (lower s) = lower (lstrip_chars isspace s).
Proof.
  induction s as [|c s IH]; [reflexivity|]. cbn [lower lstrip_chars].
  rewrite isspace_lower_char. destruct (isspace c); [exact IH | reflexivity].
Qed.

Lemma rstrip_lower (s : string) :
  rstrip_chars isspace (lower s) = lower (rstrip_chars isspace s).
Proof.
  induction s as [|c s IH]; [reflexivity|]. cbn [lower rstrip_chars].
  rewrite IH, isspace_lower_char.
  destruct (rstrip_chars isspace s); cbn [lower]; [|reflexivity].
  destruct (isspace c); reflexivity.
Qed.

Lemma strip_lower (s : string) : strip (lower s) = lower (strip s).
Proof. unfold strip. rewrite lstrip_lower, rstrip_lower. reflexivity. Qed.

Lemma strip_strip (s : string) : strip (strip s) = strip s.
Proof. apply strip_id, strip_trimmed. Qed.

(** X2.  The normaliser does not see the case of a name nor the whitespace
    around it: a name, its lower-case form and its stripped form have the
    same key. *)
Theorem clean_station_name_case_and_space (name : string) :
  clean_station_name (lower name) = clean_station_name name
  /\ clean_station_name (strip name) = clean_station_name name
  /\ stc_linea_clean (lower name) = stc_linea_clean name
  /\ stc_linea_clean (strip name) = stc_linea_clean name.
Proof.
  unfold clean_station_name, stc_linea_clean.
  rewrite lower_lower, <- strip_lower, strip_strip. repeat split.
Qed.

(** X3.  Four of the five aliases never occur in a normalised name,
    whatever the input: each is replaced, and no later replacement writes
    it again. *)
Theorem aliases_never_survive (name : string) :
  contains "terminal aerea" (clean_station_name name) = false
  /\ contains "lazaro cardenas" (clean_station_name name) = false
  /\ contains "uam azcapotzalco" (clean_station_name name) = false
  /\ contains "mixhiuca" (clean_station_name name) = false.
Proof.
  unfold clean_station_name. repeat split.
  - apply (alias_removed [] _ "terminal aerea" "terminal area"). reflexivity.
  - apply (alias_removed [_] _ "lazaro cardenas" "l. cardenas"). reflexivity.
  - apply (alias_removed [_; _; _] _ "uam azcapotzalco" "uam-azcapotzalco"). reflexivity.
  - apply (alias_removed [_; _; _; _] _ "mixhiuca" "mixiuhca"). reflexivity.
Qed.

(** X4.  The keys of a plain name (ASCII and the Latin-1 letters) are in
    normal form: ASCII, lower case and without whitespace at either end,
    for the station key and for the line key. *)
Theorem keys_of_plain_names_are_normal (name : string) :
  plain name = true ->
  normal_key (clean_station_name name) = true
  /\ normal_key (stc_linea_clean name) = true.
Proof.
  intros H. split; [apply clean_station_name_normal | apply stc_linea_clean_normal];
    exact H.
Qed.

Lemma keys_of_plain_names_are_normal_witness :
  normal_key (clean_station_name ("  Ni" ++ chr 209 ++ "os H" ++ chr 201 ++ "roes "))
  = true
  /\ normal_key (stc_linea_clean (" L" ++ chr 205 ++ "NEA 12")) = true.
Proof.
  split; apply keys_of_plain_names_are_normal; reflexivity.
Defined.

(** X5.  A key in normal form that contains none of the five aliases is a
    fixed point of the normaliser. *)
Theorem clean_station_name_fixes_clean_keys (k : string) :
  normal_key k = true ->
  (forall rule, In rule replacements -> contains (fst rule) k = false) ->
  clean_station_name k = k.
Proof.
  intros Hk Hfree. unfold clean_station_name. fold (stc_linea_clean k).
  rewrite stc_linea_clean_fixed by exact Hk.
  apply apply_replacements_fixed. exact Hfree.
Qed.

Lemma clean_station_name_fixes_clean_keys_witness :
  clean_station_name "l. cardenas" = "l. cardenas".
Proof.
  apply clean_station_name_fixes_clean_keys; [reflexivity|].
  intros rule H. cbn [replacements In] in H.
  destruct H as [<-|[<-|[<-|[<-|[<-|[]]]]]]; reflexivity.
Defined.

(** ** The loaders *)


Lemma load_and_preprocess_data_some (to_datetime : string -> option date)
  (csv : list Csv.row) (df_stc : list Stc.row) :
  load_and_preprocess_data to_datetime csv = Some df_stc ->
  Forall2 (fun r row =>
             exists d estacion linea,
               to_datetime (Csv.fecha r) = Some d
               /\ Csv.estacion r = Some estacion /\ Csv.linea r = Some linea
               /\ row = preprocess_row d estacion linea (Csv.afluencia r))
          csv df_stc.
Proof.
  revert df_stc. induction csv as [|r csv IH]; cbn [load_and_preprocess_data];
    intros df Hload.
  - inversion Hload. constructor.
  - destruct (to_datetime (Csv.fecha r)) as [d|] eqn:Hd; [|discriminate].
    destruct (Csv.estacion r) as [e|] eqn:He; [|discriminate].
    destruct (Csv.linea r) as [l|] eqn:Hl; [|discriminate].
    destruct (load_and_preprocess_data to_datetime csv) as [df'|]; [|discriminate].
    inversion Hload; subst. constructor; [|apply IH; reflexivity].
    exists d, e, l. auto.
Qed.


Lemma lstrip_chars_twice (p : ascii -> bool) (s : string) :
  lstrip_chars p (lstrip_chars p s) = lstrip_chars p s.
Proof. apply lstrip_chars_id, lstrip_chars_head. Qed.

Lemma zero_lower_char (c : ascii) : Ascii.eqb "0" (lower_char c) = Ascii.eqb "0" c.
Proof. each_char c. Qed.

Lemma lstrip_zeros_lower (s : string) :
  lstrip_zeros (lower s) = lower (lstrip_zeros s).
Proof.
  unfold lstrip_zeros. induction s as [|c s IH]; [reflexivity|].
  cbn [lower lstrip_chars]. rewrite zero_lower_char.
  destruct (Ascii.eqb "0" c); [exact IH | reflexivity].
Qed.

(** X7.  The line key of the geometry loader starts with the word
    [linea] and a space, what follows is lower case and starts with no
    zero, and the key does not depend on the leading zeros nor on the case of
    the identifier. *)
Theorem kml_linea_clean_shape (x : string) :
  (exists rest,
      kml_linea_clean x = ("linea " ++ rest)%string
      /\ all_chars lowered_char rest = true
      /\ head_char rest <> Some "0"%char)
  /\ kml_linea_clean (lstrip_zeros x) = kml_linea_clean x
  /\ kml_linea_clean (String "0" x) = kml_linea_clean x
  /\ kml_linea_clean (lower x) = kml_linea_clean x.
Proof.
  unfold kml_linea_clean. repeat split.
  - exists (lower (lstrip_zeros x)). split; [reflexivity|].
    split; [apply lower_is_lowered|].
    rewrite <- lstrip_zeros_lower. unfold lstrip_zeros.
    pose proof (lstrip_chars_head (Ascii.eqb "0") (lower x)) as H.
    unfold head_ok in H. destruct (head_char _) as [c|]; [|discriminate].
    intros Hc. inversion Hc; subst. discriminate.
  - unfold lstrip_zeros. rewrite lstrip_chars_twice. reflexivity.
  - rewrite lstrip_zeros_lower, lower_lower. reflexivity.
Qed.

(** ** Grouping conserves the ridership *)

Lemma sum_Z_app (a b : list Z) : sum_Z (a ++ b) = (sum_Z a + sum_Z b)%Z.
Proof. unfold sum_Z. induction a as [|x a IH]; simpl; [reflexivity | lia]. Qed.

Lemma sum_Z_pointwise {K : Type} (f g : K -> Z) (ks : list K) :
  sum_Z (map (fun k => (f k + g k)%Z) ks) = (sum_Z (map f ks) + sum_Z (map g ks))%Z.
Proof. unfold sum_Z. induction ks as [|k ks IH]; simpl; [reflexivity | lia]. Qed.

Section Grouping.
Context {R K : Type} (key : R -> K) (same : K -> K -> bool) (val : R -> Z).
Hypothesis same_eq : forall a b, same a b = true <-> a = b.

Lemma sum_Z_one_hit (e : K) (a : Z) (ks : list K) :
  NoDup ks -> In e ks ->
  sum_Z (map (fun k => if same e k then a else 0%Z) ks) = a.
Proof.
  intros Hnd Hin. induction ks as [|k ks IH]; [contradiction|].
  inversion Hnd as [|? ? Hk Hnd']; subst. cbn [map]. unfold sum_Z in *. cbn [fold_right].
  destruct (same e k) eqn:He.
  - apply same_eq in He. subst k.
    assert (Hzero : map (fun k => if same e k then a else 0%Z) ks = map (fun _ => 0%Z) ks).
    { apply map_ext_in. intros k Hk'. destruct (same e k) eqn:Hek; [|reflexivity].
      apply same_eq in Hek. subst. contradiction. }
    rewrite Hzero. clear. induction ks as [|k ks IH]; simpl; lia.
  - destruct Hin as [->|Hin].
    + assert (same e e = true) by (apply same_eq; reflexivity). congruence.
    + rewrite (IH Hnd' Hin). lia.
Qed.

(** Summing group by group over distinct keys that cover the rows is
    summing over the rows. *)
Lemma grouped_sum (ks : list K) (rows : list R) :
  NoDup ks -> (forall r, In r rows -> In (key r) ks) ->
  sum_Z (map (fun k => sum_Z (map val (filter (fun r => same (key r) k) rows))) ks)
  = sum_Z (map val rows).
Proof.
  intros Hnd. induction rows as [|r rows IH]; intros Hcover.
  - cbn [filter map]. clear. induction ks as [|k ks IH]; [reflexivity | exact IH].
  - change (sum_Z (map val (r :: rows))) with (val r + sum_Z (map val rows))%Z.
    rewrite <- (sum_Z_one_hit (key r) (val r) ks Hnd (Hcover r (or_introl eq_refl))) at 1.
    rewrite <- IH by (intros x Hx; apply Hcover; right; exact Hx).
    rewrite <- sum_Z_pointwise. f_equal. apply map_ext. intros k. cbn [filter].
    destruct (same (key r) k); [reflexivity | lia].
Qed.

End Grouping.

Lemma group_key_same (a b : group_key) :
  (if group_key_dec a b then true else false) = true <-> a = b.
Proof. destruct (group_key_dec a b); split; congruence. Qed.

(** X8.  The monthly aggregation has one row for each distinct (month,
    line, station) key of the ridership records and for no other key, the
    total of a row is the ridership of the records with its key, and the
    totals add up to the ridership of all the records. *)
Theorem groupby_month_conserves (df_stc : list Stc.row) :
  NoDup (map fst (groupby_month df_stc))
  /\ (forall k, In k (map fst (groupby_month df_stc)) <-> In k (map stc_key df_stc))
  /\ (forall k t, In (k, t) (groupby_month df_stc) ->
        t = sum_Z (map Stc.afluencia
                     (filter (fun r => if group_key_dec (stc_key r) k then true else false)
                             df_stc)))
  /\ sum_Z (map snd (groupby_month df_stc)) = sum_Z (map Stc.afluencia df_stc).
Proof.
  split; [apply groupby_month_keys|]. split; [|split].
  - intros k. unfold groupby_month. rewrite map_map. cbn [fst]. rewrite map_id.
    rewrite sort_by_In. apply nodup_In.
  - intros k t Hin. unfold groupby_month in Hin. apply in_map_iff in Hin.
    destruct Hin as [k' [Heq _]]. inversion Heq; subst. reflexivity.
  - unfold groupby_month. rewrite map_map. cbn [snd]. unfold group_total.
    apply (grouped_sum stc_key (fun a b => if group_key_dec a b then true else false)).
    + exact group_key_same.
    + apply sort_by_NoDup, NoDup_nodup.
    + intros r Hr. apply sort_by_In, nodup_In, in_map. exact Hr.
Qed.

(** ** The left merge *)

Lemma joined_row_fields (l : group_key * Z) (coords : option (Q * Q)) :
  month_key (joined_row l coords) = fst l
  /\ Month.afluencia (joined_row l coords) = snd l
  /\ Month.index (joined_row l coords) = None
  /\ Month.lat (joined_row l coords) = option_map fst coords
  /\ Month.lon (joined_row l coords) = option_map snd coords.
Proof. destruct l as [[[ym linea] estacion] a]. repeat split. Qed.

Lemma merge_row_In (right : list Station.row) (l : group_key * Z) (r : Month.row) :
  In r (merge_row right l)
  <-> (filter (joins l) right = [] /\ r = joined_row l None)
      \/ exists s, In s right /\ joins l s = true
                   /\ r = joined_row l (Some (Station.lat s, Station.lon s)).
Proof.
  unfold merge_row. destruct (filter (joins l) right) as [|s0 rest] eqn:Hf.
  - split.
    + intros [<-|[]]. left. auto.
    + intros [[_ ->]|[s [Hs [Hj _]]]]; [left; reflexivity|].
      assert (Hin : In s (filter (joins l) right)) by (apply filter_In; auto).
      rewrite Hf in Hin. contradiction.
  - rewrite <- Hf. rewrite in_map_iff. split.
    + intros [s [<- Hs]]. apply filter_In in Hs. right. exists s. tauto.
    + intros [[H _]|[s [Hs [Hj ->]]]]; [congruence|].
      exists s. split; [reflexivity | apply filter_In; auto].
Qed.

(** X9.  The left merge drops no ridership row and invents none: every
    aggregated row comes out at least once with its key and its total, and
    every row that comes out is an aggregated row, either with the
    coordinates of a geometry row that has its station and line keys, or
    with null coordinates when the geometry has no such row. *)
Theorem merge_left_keeps_every_row (left : list (group_key * Z))
  (right : list Station.row) :
  (forall l, In l left ->
     exists r, In r (merge_left left right)
               /\ month_key r = fst l /\ Month.afluencia r = snd l)
  /\ forall r, In r (merge_left left right) ->
       exists l,
         In l left /\ month_key r = fst l /\ Month.afluencia r = snd l
         /\ ((Month.lat r = None /\ Month.lon r = None
              /\ forall s, In s right ->
                   station_key s <> (Month.estacion_clean r, Month.linea_clean r))
             \/ exists s,
                  In s right
                  /\ station_key s = (Month.estacion_clean r, Month.linea_clean r)
                  /\ Month.lat r = Some (Station.lat s)
                  /\ Month.lon r = Some (Station.lon s)).
Proof.
  unfold merge_left. split.
  - intros l Hl.
    assert (Hex : exists r, In r (merge_row right l)).
    { unfold merge_row. destruct (filter (joins l) right) as [|s rest];
        eexists; left; reflexivity. }
    destruct Hex as [r Hr]. exists r. split.
    + apply in_flat_map. exists l. auto.
    + apply merge_row_In in Hr.
      destruct Hr as [[_ ->]|[s [_ [_ ->]]]]; split; apply joined_row_fields.
  - intros r Hr. apply in_flat_map in Hr. destruct Hr as [l [Hl Hr]].
    exists l. split; [exact Hl|]. apply merge_row_In in Hr.
    destruct Hr as [[Hnone ->]|[s [Hs [Hj ->]]]].
    + assert (Hmiss : forall s, In s right -> joins l s = false).
      { intros s Hs. destruct (joins l s) eqn:Hj; [|reflexivity].
        assert (Hin : In s (filter (joins l) right)) by (apply filter_In; auto).
        rewrite Hnone in Hin. contradiction. }
      destruct l as [[[ym linea] estacion] a]. cbn.
      repeat split. left. repeat split. intros s Hs Hkey.
      specialize (Hmiss s Hs). unfold joins, station_key in *. cbn [fst snd] in Hmiss.
      inversion Hkey as [[H1 H2]]. rewrite H1, H2, !String.eqb_refl in Hmiss.
      discriminate.
    + pose proof (joins_key _ _ Hj) as Hkey.
      destruct l as [[[ym linea] estacion] a]. cbn.
      repeat split. right. exists s. repeat split; [exact Hs | exact Hkey].
Qed.

Lemma merge_left_rows (left : list (group_key * Z)) (right : list Station.row) :
  NoDup (map station_key right) ->
  map (fun r => (month_key r, Month.afluencia r)) (merge_left left right) = left.
Proof.
  intros Hnd. unfold merge_left.
  induction left as [|l left IH]; [reflexivity|].
  cbn [flat_map]. rewrite map_app, IH. clear IH. unfold merge_row.
  destruct (filter_at_most_one station_key (joins l) _ right Hnd (joins_key l))
    as [->|[s ->]]; destruct l as [[[ym linea] estacion] a]; reflexivity.
Qed.

(** X10.  When the geometry has at most one row per (station, line) key,
    the left merge returns the aggregated rows one for one, in their order,
    with their keys and totals; the ridership of the joined frame is that
    of the aggregation. *)
Theorem merge_left_one_for_one (left : list (group_key * Z))
  (right : list Station.row) :
  NoDup (map station_key right) ->
  map (fun r => (month_key r, Month.afluencia r)) (merge_left left right) = left
  /\ List.length (merge_left left right) = List.length left
  /\ sum_Z (map Month.afluencia (merge_left left right)) = sum_Z (map snd left).
Proof.
  intros Hnd. pose proof (merge_left_rows left right Hnd) as H.
  split; [exact H|]. split.
  - rewrite <- H at 2. rewrite length_map. reflexivity.
  - rewrite <- H at 2. rewrite map_map. reflexivity.
Qed.

Lemma merge_left_one_for_one_witness :
  List.length
    (merge_left [ (("2024-01", "linea 1", "balderas"), 100%Z);
                  (("2024-01", "linea 1", "merced"), 40%Z) ]
                (load_and_process_kml_data (firstn 1 doubled_gdf)))
  = 2%nat.
Proof.
  destruct (merge_left_one_for_one
              [ (("2024-01", "linea 1", "balderas"), 100%Z);
                (("2024-01", "linea 1", "merced"), 40%Z) ]
              (load_and_process_kml_data (firstn 1 doubled_gdf)))
    as [_ [H _]].
  - apply has_duplicate_false. reflexivity.
  - exact H.
Defined.

(** ** The filter on any target *)

Lemma select_rows_positions (mask : Month.row -> bool) (df : list Month.row) (i : nat) :
  increasing (map fst (select_rows mask i df))
  /\ forall j, In j (map fst (select_rows mask i df)) ->
               (i <= j < i + List.length df)%nat.
Proof.
  revert i. induction df as [|r df IH]; intros i; cbn [select_rows].
  - split; [exact I | intros j []].
  - destruct (IH (S i)) as [Hinc Hbound].
    assert (Hb : forall j, In j (map fst (select_rows mask (S i) df)) ->
                           (i <= j < i + List.length (r :: df))%nat).
    { intros j Hj. apply Hbound in Hj. cbn [List.length]. lia. }
    destruct (mask r); [|auto]. cbn [map fst increasing]. split.
    + split; [|exact Hinc]. intros j Hj. apply Hbound in Hj. lia.
    + intros j [<-|Hj]; [cbn [List.length]; lia | auto].
Qed.

(** X11.  For any target, lower case or not, the rows that pass the
    filter have the lower-cased target as line key and a month in the
    range, so that a target and its lower-case form select the same rows,
    and so do dates of the same two months; the column [index] of the
    result holds the positions of the rows in the input, in increasing
    order. *)
Theorem filter_data_any_target (df : list Month.row) (linea : string)
  (start_date end_date : date) :
  (forall r, In r (filter_data df linea start_date end_date) ->
     Month.linea_clean r = lower linea
     /\ String.leb (strftime_ym start_date) (Month.year_month r) = true
     /\ String.leb (Month.year_month r) (strftime_ym end_date) = true)
  /\ filter_data df (lower linea) start_date end_date
     = filter_data df linea start_date end_date
  /\ filter_data df linea (truncate_month start_date) (truncate_month end_date)
     = filter_data df linea start_date end_date
  /\ exists positions,
       map Month.index (filter_data df linea start_date end_date)
       = map Some positions
       /\ increasing positions
       /\ forall i, In i positions -> (i < List.length df)%nat.
Proof.
  split; [|split; [|split]].
  - unfold filter_data, reset_index. intros r' Hr'. apply in_map_iff in Hr'.
    destruct Hr' as [[i r] [<- Hin]]. apply select_rows_In in Hin.
    destruct Hin as [_ [_ [_ Hm]]]. cbn [fst snd] in *. unfold in_range in Hm.
    repeat rewrite andb_true_iff in Hm. destruct Hm as [[H1 H2] H3].
    apply String.eqb_eq in H1. auto.
  - unfold filter_data, in_range. rewrite lower_lower. reflexivity.
  - reflexivity.
  - exists (map fst (select_rows
                       (in_range linea (strftime_ym start_date) (strftime_ym end_date))
                       0%nat df)).
    split; [unfold filter_data, reset_index; rewrite !map_map; reflexivity|].
    destruct (select_rows_positions
                (in_range linea (strftime_ym start_date) (strftime_ym end_date)) df 0)
      as [Hinc Hbound].
    split; [exact Hinc|]. intros i Hi. apply Hbound in Hi. lia.
Qed.

(** ** The chart builder's failure *)

(** X12.  The chart builder raises exactly when two of its records have
    the same month and station; on records without such a pair, the empty
    frame included, it returns a chart. *)
Theorem create_line_chart_raises (filtered_df_stations : list Month.row) :
  (create_line_chart filtered_df_stations = None
   <-> ~ NoDup (map pivot_key filtered_df_stations))
  /\ create_line_chart [] <> None.
Proof.
  split; [|discriminate]. split.
  - intros Hnone Hnd.
    pose proof (create_line_chart_unfold _ Hnd) as H. cbv zeta in H. congruence.
  - intros Hdup. unfold create_line_chart, pivot.
    destruct (has_duplicate pivot_key_eqb (map pivot_key filtered_df_stations)) eqn:Hd;
      [reflexivity|].
    apply has_duplicate_false in Hd. contradiction.
Qed.

(** ** The stations of the chart *)

Local Open Scope list_scope.

Lemma descending_In_le (l : list Z) :
  descending l -> forall a b, l = a ++ b ->
  forall x y, In x a -> In y b -> (y <= x)%Z.
Proof.
  induction l as [|z l IH]; intros Hd a b Heq x y Hx Hy.
  - destruct a; [contradiction | discriminate].
  - destruct a as [|z' a]; [contradiction|]. inversion Heq; subst.
    destruct Hd as [Hz Hd]. destruct Hx as [<-|Hx].
    + apply Hz. apply in_or_app. right. exact Hy.
    + apply (IH Hd a b eq_refl x y Hx Hy).
Qed.

Lemma insert_descending {A : Type} (x : A * Z) (l : list (A * Z)) :
  descending (map snd l) ->
  descending (map snd (insert_sorted (fun a b => (snd b <=? snd a)%Z) x l)).
Proof.
  induction l as [|y l IH]; cbn [insert_sorted map descending].
  - intros _. split; [intros z [] | exact I].
  - intros [Hy Hl]. destruct (Z.leb_spec (snd y) (snd x)) as [Hle|Hlt];
      cbn [map descending].
    + repeat split; auto. intros z [<-|Hz]; [exact Hle|]. specialize (Hy z Hz). lia.
    + split; [|apply IH; exact Hl]. intros z Hz. apply in_map_iff in Hz.
      destruct Hz as [w [<- Hw]].
      apply (Permutation_in _ (insert_sorted_perm _ x l)) in Hw.
      destruct Hw as [<-|Hw]; [lia|]. apply Hy, in_map, Hw.
Qed.

Lemma sort_descending_sorted {A : Type} (l : list (A * Z)) :
  descending (map snd (sort_descending l)).
Proof.
  unfold sort_descending, sort_by. induction l as [|x l IH]; [exact I|].
  cbn [fold_right]. apply insert_descending. exact IH.
Qed.

Lemma total_per_station_In (df : list Month.row) (c : string) (t : Z) :
  In (c, t) (sort_descending (total_per_station df))
  <-> In c (stations_of df) /\ t = station_total df c.
Proof.
  unfold sort_descending. rewrite sort_by_In. unfold total_per_station.
  rewrite in_map_iff. split.
  - intros [x [Heq Hx]]. inversion Heq; subst. auto.
  - intros [Hc ->]. exists c. auto.
Qed.

Lemma sorted_stations_NoDup (df : list Month.row) :
  NoDup (map fst (sort_descending (total_per_station df))).
Proof.
  apply (Permutation_NoDup (l := map fst (total_per_station df))).
  - apply Permutation_map. symmetry. apply sort_by_perm.
  - unfold total_per_station. rewrite map_map. cbn [fst]. rewrite map_id.
    apply unique_sorted_NoDup.
Qed.

(** X13.  The chart displays at most five stations, all different and
    all stations of the records, together with the column [Total]; a
    station that is left out has a total ridership that is at most that of
    every displayed station, and with five stations or fewer none is left
    out. *)
Theorem chart_displays_top_stations (filtered_df_stations : list Month.row) :
  NoDup (map pivot_key filtered_df_stations) ->
  let top := top_5_stations filtered_df_stations in
  exists chart,
    create_line_chart filtered_df_stations = Some chart
    /\ (forall c, In c (columns chart) <-> In c top \/ c = "Total")
    /\ (List.length top <= 5)%nat
    /\ NoDup top
    /\ (forall c, In c top -> In c (map Month.estacion_clean filtered_df_stations))
    /\ (forall c c', In c top ->
          In c' (map Month.estacion_clean filtered_df_stations) -> ~ In c' top ->
          (station_total filtered_df_stations c'
           <= station_total filtered_df_stations c)%Z)
    /\ ((List.length (stations_of filtered_df_stations) <= 5)%nat ->
        forall c', In c' (map Month.estacion_clean filtered_df_stations) -> In c' top).
Proof.
  intros Hnd top. rewrite (create_line_chart_unfold _ Hnd).
  eexists. split; [reflexivity|].
  set (sorted := sort_descending (total_per_station filtered_df_stations)).
  assert (Hsplit : sorted = firstn 5 sorted ++ skipn 5 sorted)
    by (symmetry; apply firstn_skipn).
  assert (Hstations : forall c, In c (map Month.estacion_clean filtered_df_stations)
                                -> In (c, station_total filtered_df_stations c) sorted).
  { intros c Hc. apply total_per_station_In. split; [|reflexivity].
    apply unique_sorted_In. exact Hc. }
  split; [|split; [|split; [|split; [|split]]]].
  - intros c. unfold set_column. cbn [columns]. fold top.
    match goal with |- context [if ?b then _ else _] => destruct b eqn:Hb end.
    + split; [auto|]. intros [H| ->]; [exact H|].
      apply has_column_In in Hb. exact Hb.
    + rewrite in_app_iff. cbn [In]. intuition.
  - unfold top, top_5_stations. rewrite length_map. apply firstn_le_length.
  - pose proof (sorted_stations_NoDup filtered_df_stations) as H. fold sorted in H.
    rewrite Hsplit, map_app in H. apply NoDup_app_remove_r in H. exact H.
  - intros c Hc. apply unique_sorted_In, top_5_are_columns. exact Hc.
  - intros c c' Hc Hc' Hout. unfold top, top_5_stations in Hc, Hout. fold sorted in Hc, Hout.
    apply in_map_iff in Hc. destruct Hc as [[c0 t] [Heq Hin]]. cbn [fst] in Heq. subst c0.
    assert (Ht : t = station_total filtered_df_stations c).
    { apply (total_per_station_In filtered_df_stations c t). fold sorted.
      apply (firstn_incl 5). exact Hin. }
    subst t. specialize (Hstations c' Hc'). rewrite Hsplit in Hstations.
    apply in_app_or in Hstations. destruct Hstations as [H|H].
    + exfalso. apply Hout. apply in_map_iff. exists (c', station_total filtered_df_stations c').
      auto.
    + pose proof (sort_descending_sorted (total_per_station filtered_df_stations)) as Hd.
      fold sorted in Hd.
      apply (descending_In_le _ Hd (map snd (firstn 5 sorted)) (map snd (skipn 5 sorted))).
      * rewrite <- map_app, <- Hsplit. reflexivity.
      * apply in_map_iff. exists (c, station_total filtered_df_stations c). auto.
      * apply in_map_iff. exists (c', station_total filtered_df_stations c'). auto.
  - intros Hfew c' Hc'. unfold top, top_5_stations. fold sorted.
    rewrite firstn_all2.
    + apply in_map_iff. exists (c', station_total filtered_df_stations c'). auto.
    + unfold sorted, sort_descending. rewrite sort_by_length. unfold total_per_station.
      rewrite length_map. exact Hfew.
Qed.

Lemma chart_displays_top_stations_witness :
  top_5_stations six_stations
  = ["balderas"; "candelaria"; "merced"; "observatorio"; "pantitlan"]
  /\ (station_total six_stations "zaragoza" <= station_total six_stations "pantitlan")%Z.
Proof.
  split; [reflexivity|].
  destruct (chart_displays_top_stations six_stations) as [chart [_ [_ [_ [_ [_ [H _]]]]]]].
  - apply has_duplicate_false. reflexivity.
  - apply H.
    + right. right. right. right. left. reflexivity.
    + right. right. right. right. right. left. reflexivity.
    + intros Hin. vm_compute in Hin. intuition discriminate.
Defined.

(** ** The series of the chart *)

Lemma nth_position_map {B : Type} (f : string -> B) (d : B) (c : string)
  (l : list string) :
  In c l -> nth (position c l) (map f l) d = f c.
Proof.
  induction l as [|x l IH]; [contradiction|]. cbn [position map].
  destruct (String.eqb_spec c x) as [->|Hne]; [reflexivity|].
  intros [H|H]; [congruence | exact (IH H)].
Qed.

Lemma position_inj (c c' : string) (l : list string) :
  In c l -> position c l = position c' l -> c = c'.
Proof.
  induction l as [|x l IH]; [contradiction|]. cbn [position].
  destruct (String.eqb_spec c x) as [->|Hne], (String.eqb_spec c' x) as [->|Hne'];
    try discriminate; try reflexivity.
  intros [H|H] Heq; [congruence|]. apply IH; [exact H | lia].
Qed.

Lemma position_app_first (c : string) (l l' : list string) :
  In c l -> position c (l ++ l') = position c l.
Proof.
  induction l as [|x l IH]; [contradiction|]. cbn [position List.app].
  destruct (String.eqb_spec c x); [reflexivity|].
  intros [H|H]; [congruence|]. f_equal. exact (IH H).
Qed.

Lemma nth_update_other {A : Type} (n m : nat) (v d : A) (l : list A) :
  n <> m -> nth n (update m v l) d = nth n l d.
Proof.
  revert n m. induction l as [|x l IH]; intros [|n] [|m] H; cbn; try reflexivity;
    try congruence.
  apply IH. congruence.
Qed.

Lemma map_fst_combine {A B : Type} (l : list A) (l' : list B) :
  List.length l' = List.length l -> map fst (combine l l') = l.
Proof.
  revert l'. induction l as [|x l IH]; intros [|y l']; simpl; try discriminate; auto.
  intros H. f_equal. apply IH. lia.
Qed.

(** Assigning a column leaves the other columns as they are. *)
Lemma column_set_column_other (c t0 : string) (series : list (option Z)) (t : frame) :
  c <> t0 -> In c (columns t) ->
  List.length series = List.length (values t) ->
  (forall row, In row (values t) -> List.length row = List.length (columns t)) ->
  column c (set_column t0 series t) = column c t.
Proof.
  intros Hne Hc Hlen Hrows. unfold column, set_column. cbn [columns values].
  rewrite map_map.
  rewrite <- (map_fst_combine (values t) series Hlen) at 2. rewrite map_map.
  apply map_ext_in. intros [row v] Hin. cbn [fst snd].
  apply in_combine_l in Hin. apply Hrows in Hin.
  destruct (has_column t0 t) eqn:Ht.
  - apply nth_update_other. intros Heq. apply Hne. apply (position_inj _ _ _ Hc Heq).
  - rewrite position_app_first by exact Hc. apply app_nth1.
    rewrite Hin. apply position_lt. exact Hc.
Qed.

Lemma NoDup_map_injective {A B : Type} (f : A -> B) (l : list A) (x y : A) :
  NoDup (map f l) -> In x l -> In y l -> f x = f y -> x = y.
Proof.
  induction l as [|z l IH]; [contradiction|]. cbn [map]. intros Hnd Hx Hy Heq.
  inversion Hnd as [|? ? Hz Hl]; subst.
  destruct Hx as [->|Hx], Hy as [->|Hy]; auto.
  - exfalso. apply Hz. rewrite Heq. apply in_map. exact Hy.
  - exfalso. apply Hz. rewrite <- Heq. apply in_map. exact Hx.
Qed.

Lemma cell_spec (df : list Month.row) (i c : string) :
  NoDup (map pivot_key df) ->
  (forall a, cell df i c = Some a
             <-> exists r, In r df /\ Month.year_month r = i
                           /\ Month.estacion_clean r = c /\ Month.afluencia r = a)
  /\ (cell df i c = None
      <-> forall r, In r df -> ~ (Month.year_month r = i /\ Month.estacion_clean r = c)).
Proof.
  intros Hnd. unfold cell.
  destruct (find (fun r => pivot_key_eqb (pivot_key r) (i, c)) df) as [r0|] eqn:Hf.
  - apply find_some in Hf. destruct Hf as [Hin Hkey]. apply pivot_key_eqb_eq in Hkey.
    unfold pivot_key in Hkey. inversion Hkey as [[Hi Hc]]. cbn [option_map]. split.
    + intros a. split.
      * intros Ha. inversion Ha. exists r0. auto.
      * intros [r [Hr [Hri [Hrc Hra]]]]. f_equal. rewrite <- Hra. f_equal.
        apply (NoDup_map_injective pivot_key df r0 r Hnd Hin Hr).
        unfold pivot_key. congruence.
    + split; [discriminate|]. intros H. exfalso. apply (H r0 Hin). auto.
  - cbn [option_map]. split.
    + intros a. split; [discriminate|]. intros [r [Hr [Hri [Hrc _]]]]. exfalso.
      pose proof (find_none _ _ Hf r Hr) as Hno. cbn beta in Hno.
      assert (pivot_key_eqb (pivot_key r) (i, c) = true); [|congruence].
      apply pivot_key_eqb_eq. unfold pivot_key. congruence.
    + split; [|reflexivity]. intros _ r Hr [Hri Hrc].
      pose proof (find_none _ _ Hf r Hr) as Hno. cbn beta in Hno.
      assert (pivot_key_eqb (pivot_key r) (i, c) = true); [|congruence].
      apply pivot_key_eqb_eq. unfold pivot_key. congruence.
Qed.

(** X14.  In the chart, the column of a displayed station holds, month by
    month, the ridership of the record of that station and month, and NaN
    for a month in which the station has no record. *)
Theorem chart_series_are_the_records (filtered_df_stations : list Month.row)
  (c : string) :
  NoDup (map pivot_key filtered_df_stations) ->
  In c (top_5_stations filtered_df_stations) -> c <> "Total"%string ->
  exists chart,
    create_line_chart filtered_df_stations = Some chart
    /\ List.length (column c chart) = List.length (index chart)
    /\ forall k i,
         nth_error (index chart) k = Some i ->
         (forall a, nth_error (column c chart) k = Some (Some a)
                    <-> exists r, In r filtered_df_stations
                                  /\ Month.year_month r = i
                                  /\ Month.estacion_clean r = c
                                  /\ Month.afluencia r = a)
         /\ (nth_error (column c chart) k = Some None
             <-> forall r, In r filtered_df_stations ->
                           ~ (Month.year_month r = i /\ Month.estacion_clean r = c)).
Proof.
  intros Hnd Hc Hne. rewrite (create_line_chart_unfold _ Hnd).
  eexists. split; [reflexivity|].
  set (df := filtered_df_stations) in *.
  set (idx := unique_sorted (map Month.year_month df)).
  set (cols := unique_sorted (map Month.estacion_clean df)).
  fold (top_5_stations df).
  assert (Hcol : In c cols) by (apply top_5_are_columns; exact Hc).
  assert (Heq : column c
                  (set_column "Total"
                     (map Some (sum_rows {| index := idx; columns := cols;
                                            values := map (fun i => map (cell df i) cols) idx |}))
                     {| index := idx; columns := top_5_stations df;
                        values := map (fun row => map (fun c0 => nth (position c0 cols) row None)
                                                      (top_5_stations df))
                                      (values {| index := idx; columns := cols;
                                                 values := map (fun i => map (cell df i) cols) idx |}) |})
                = map (fun i => cell df i c) idx).
  { rewrite column_set_column_other; [| exact Hne | exact Hc | |].
    - unfold column. cbn [columns values]. rewrite !map_map. apply map_ext. intros i.
      rewrite (nth_position_map (fun c0 => nth (position c0 cols) (map (cell df i) cols) None)
                 None c _ Hc).
      apply nth_position_map. exact Hcol.
    - cbn [values]. unfold sum_rows. cbn [values]. rewrite !length_map. reflexivity.
    - cbn [values columns]. intros row Hrow. apply in_map_iff in Hrow.
      destruct Hrow as [r [<- _]]. apply length_map. }
  rewrite Heq. cbn [index set_column]. split; [apply length_map|].
  intros k i Hk. rewrite nth_error_map, Hk. cbn [option_map].
  destruct (cell_spec df i c Hnd) as [Hsome Hnone]. split.
  - intros a. rewrite <- Hsome. split; intros H; [inversion H; reflexivity | rewrite H; reflexivity].
  - rewrite <- Hnone. split; intros H; [inversion H; reflexivity | rewrite H; reflexivity].
Qed.

Lemma chart_series_are_the_records_witness :
  exists chart,
    create_line_chart six_stations = Some chart
    /\ column "balderas" chart = [Some 60%Z; None].
Proof.
  destruct (chart_series_are_the_records six_stations "balderas")
    as [chart [H _]].
  - apply has_duplicate_false. reflexivity.
  - left. reflexivity.
  - discriminate.
  - exists chart. split; [exact H|]. vm_compute in H. inversion H. reflexivity.
Defined.

(** ** The table and the coordinates of the map *)


Lemma first_valid_spec {A : Type} (l : list (option A)) :
  (forall v, first_valid l = Some v ->
             exists l1 l2, l = l1 ++ Some v :: l2 /\ forall x, In x l1 -> x = None)
  /\ (first_valid l = None <-> forall x, In x l -> x = None).
Proof.
  induction l as [|[a|] l [IH1 IH2]]; cbn [first_valid].
  - split; [discriminate|]. split; [intros _ x [] | reflexivity].
  - split.
    + intros v Hv. inversion Hv; subst. exists [], l. split; [reflexivity | intros x []].
    + split; [discriminate|]. intros H. exact (H _ (or_introl eq_refl)).
  - split.
    + intros v Hv. destruct (IH1 v Hv) as [l1 [l2 [-> Hnull]]].
      exists (None :: l1), l2. split; [reflexivity|]. intros x [<-|Hx]; auto.
    + rewrite IH2. split; [intros H x [<-|Hx]; auto | intros H x Hx; apply H; right; exact Hx].
Qed.

(** X16.  The coordinates of a station on the map are those of the first
    of its filtered records that has some: a latitude on the map is the
    latitude of a record of the station, and no record of the station
    before that one has a latitude; the latitude is null exactly when all
    the records of the station have none.  The same holds of the
    longitude. *)
Theorem map_coordinates_are_first_seen (filtered_df_stations : list Month.row)
  (a : Aggregate.row) :
  In a (st_map (display_map_and_table filtered_df_stations)) ->
  let records := station_rows filtered_df_stations (Aggregate.estacion_clean a) in
  (forall v, Aggregate.lat a = Some v ->
     exists before r after,
       records = before ++ r :: after /\ Month.lat r = Some v
       /\ forall x, In x before -> Month.lat x = None)
  /\ (Aggregate.lat a = None <-> forall r, In r records -> Month.lat r = None)
  /\ (forall v, Aggregate.lon a = Some v ->
        exists before r after,
          records = before ++ r :: after /\ Month.lon r = Some v
          /\ forall x, In x before -> Month.lon x = None)
  /\ (Aggregate.lon a = None <-> forall r, In r records -> Month.lon r = None)
  /\ forall r, In r records <-> In r filtered_df_stations
                                /\ Month.estacion_clean r = Aggregate.estacion_clean a.
Proof.
  cbn [display_map_and_table st_map]. rewrite stations_aggregate_eq.
  intros Ha. apply in_map_iff in Ha. destruct Ha as [c [<- _]].
  cbv zeta. cbn [Aggregate.estacion_clean Aggregate.lat Aggregate.lon].
  set (records := station_rows filtered_df_stations c).
  assert (Hsplit : forall (f : Month.row -> option Q) v,
             first_valid (map f records) = Some v ->
             exists before r after,
               records = before ++ r :: after /\ f r = Some v
               /\ forall x, In x before -> f x = None).
  { intros f v Hv. destruct (first_valid_spec (map f records)) as [H _].
    destruct (H v Hv) as [l1 [l2 [Heq Hnull]]].
    apply map_eq_app in Heq. destruct Heq as [before [rest [Hrec [H1 H2]]]].
    apply map_eq_cons in H2. destruct H2 as [r [after [Hrest [Hr _]]]].
    exists before, r, after. subst. repeat split; auto.
    intros x Hx. apply Hnull. apply in_map. exact Hx. }
  assert (Hnone : forall (f : Month.row -> option Q),
             first_valid (map f records) = None <-> forall r, In r records -> f r = None).
  { intros f. destruct (first_valid_spec (map f records)) as [_ H]. rewrite H. split.
    - intros Hall r Hr. apply Hall, in_map, Hr.
    - intros Hall x Hx. apply in_map_iff in Hx. destruct Hx as [r [<- Hr]]. auto. }
  repeat split; try (apply Hsplit); try (apply Hnone).
  - apply filter_In in H. tauto.
  - apply filter_In in H. destruct H as [_ H]. apply String.eqb_eq in H. exact H.
  - intros [Hr Hc]. apply filter_In. split; [exact Hr | apply String.eqb_eq, Hc].
Qed.

Lemma map_coordinates_are_first_seen_witness :
  Forall (fun a => Aggregate.estacion_clean a = "salto del agua"%string ->
                   Aggregate.lat a = None)
         (st_map (display_map_and_table with_join_miss)).
Proof.
  apply Forall_forall. intros a Ha Hname.
  destruct (map_coordinates_are_first_seen with_join_miss a Ha) as [_ [H _]].
  apply H. rewrite Hname. intros r [<-|[]]. reflexivity.
Defined.

(** ** Numbers with thousands separators *)

Lemma size_nat_bound (n : N) : n < pow2 (N.size_nat n).
Proof.
  destruct n as [|p]; [reflexivity|]. cbn [N.size_nat].
  induction p as [p IH|p IH|]; cbn [Pos.size_nat pow2]; lia.
Qed.

Lemma digit_value_digit (k : N) : digit_value (digit k) = Some (k mod 10).
Proof.
  unfold digit_value, code. rewrite code_digit.
  pose proof (N.mod_lt k 10 ltac:(lia)) as Hk. revert Hk.
  generalize (k mod 10). intros m Hm.
  replace (48 <=? 48 + m)%N with true by (symmetry; apply N.leb_le; lia).
  replace (48 + m <=? 57)%N with true by (symmetry; apply N.leb_le; lia).
  cbn [andb]. f_equal. lia.
Qed.

Lemma digit_not_comma (k : N) : Ascii.eqb (digit k) "," = false.
Proof.
  apply Ascii.eqb_neq. intros H. apply (f_equal N_of_ascii) in H.
  rewrite code_digit in H. change (N_of_ascii ",") with 44 in H.
  revert H. generalize (k mod 10). intros m H. lia.
Qed.

Lemma read_digits_digit (acc k : N) (s : string) :
  read_digits acc (String (digit k) s) = read_digits (10 * acc + k mod 10) s.
Proof. cbn [read_digits]. rewrite digit_not_comma, digit_value_digit. reflexivity. Qed.

Lemma read_digits_app (acc : N) (a b : string) :
  read_digits acc (a ++ b)
  = match read_digits acc a with
    | Some v => read_digits v b
    | None => None
    end.
Proof.
  revert acc. induction a as [|c a IH]; intros acc; [reflexivity|].
  cbn [append read_digits]. destruct (Ascii.eqb c ","); [apply IH|].
  destruct (digit_value c); [apply IH | reflexivity].
Qed.

Lemma read_digits_pad3 (acc r : N) :
  r < 1000 -> read_digits acc (pad3 r) = Some (1000 * acc + r).
Proof.
  intros Hr. unfold pad3. rewrite !read_digits_digit. cbn [read_digits]. f_equal.
  rewrite (N.mod_small (r / 100)) by (apply N.Div0.div_lt_upper_bound; lia).
  zify; Z.to_euclidean_division_equations; lia.
Qed.

Lemma read_small_numeral (n : N) :
  n < 1000 -> read_digits 0 (NilZero.string_of_uint (N.to_uint n)) = Some n.
Proof.
  intros Hn.
  assert (Hall : forallb
            (fun k => match read_digits 0 (NilZero.string_of_uint (N.to_uint k)) with
                      | Some m => (m =? k)%N
                      | None => false
                      end)
            (map N.of_nat (seq 0 1000)) = true) by (vm_compute; reflexivity).
  rewrite forallb_forall in Hall. specialize (Hall n).
  destruct (read_digits 0 (NilZero.string_of_uint (N.to_uint n))) as [m|].
  - f_equal. apply N.eqb_eq, Hall. apply in_map_iff. exists (N.to_nat n).
    split; [apply N2Nat.id | apply in_seq; lia].
  - discriminate Hall. apply in_map_iff. exists (N.to_nat n).
    split; [apply N2Nat.id | apply in_seq; lia].
Qed.

Lemma read_thousands_digits (fuel : nat) (n : N) :
  n < pow2 fuel -> read_digits 0 (thousands fuel n) = Some n.
Proof.
  revert n. induction fuel as [|fuel IH]; intros n Hn; cbn [thousands pow2] in *.
  - apply read_small_numeral. lia.
  - destruct (N.ltb_spec n 1000) as [Hs|Hl]; [apply read_small_numeral, Hs|].
    rewrite read_digits_app, IH by (apply N.Div0.div_lt_upper_bound; lia).
    change ("," ++ pad3 (n mod 1000))%string with (String "," (pad3 (n mod 1000))).
    cbn [read_digits Ascii.eqb Bool.eqb]. cbn match.
    rewrite read_digits_pad3 by (apply N.mod_lt; lia). f_equal.
    pose proof (N.div_mod n 1000 ltac:(lia)). lia.
Qed.

(** X17.  A ridership written for the table reads back as the same
    number: dropping the thousands separators of [format_thousands] and
    reading the digits, with the sign, gives the number that was
    formatted. *)
Theorem format_thousands_reads_back (x : Z) :
  read_thousands (format_thousands x) = Some x.
Proof.
  unfold format_thousands.
  pose proof (read_thousands_digits _ _ (size_nat_bound (Z.abs_N x))) as Hread.
  set (digits := thousands (N.size_nat (Z.abs_N x)) (Z.abs_N x)) in *.
  destruct (Z.ltb_spec x 0) as [Hneg|Hpos].
  - change ("-" ++ digits)%string with (String "-" digits). cbn [read_thousands].
    rewrite Hread. cbn [option_map]. f_equal. lia.
  - cbn [append]. unfold read_thousands.
    destruct digits as [|c s] eqn:Hd; [cbn in *; inversion Hread; f_equal; lia|].
    destruct (Ascii.eqb_spec c "-") as [->|Hc].
    + cbn in Hread. discriminate.
    + assert (Hsame : match c with
                      | "-"%char => option_map (fun n => (- Z.of_N n)%Z) (read_digits 0 s)
                      | _ => option_map Z.of_N (read_digits 0 (String c s))
                      end = option_map Z.of_N (read_digits 0 (String c s))).
      { destruct c as [[] [] [] [] [] [] [] []]; try reflexivity. congruence. }
      rewrite Hsame, Hread. cbn [option_map]. f_equal. lia.
Qed.

(** ** The page *)




Lemma nodup_app_last (l : list string) (k : string) :
  nodup string_dec (l ++ [k]) = remove string_dec k (nodup string_dec l) ++ [k].
Proof.
  induction l as [|x l IH]; cbn [List.app nodup].
  - destruct (in_dec string_dec k []); [contradiction | reflexivity].
  - destruct (in_dec string_dec x (l ++ [k])) as [Hin|Hout],
             (in_dec string_dec x l) as [Hin'|Hout'].
    + exact IH.
    + apply in_app_or in Hin. destruct Hin as [Hin|[->|[]]]; [contradiction|].
      rewrite IH. cbn [remove]. destruct (string_dec x x); [reflexivity | congruence].
    + exfalso. apply Hout. apply in_or_app. left. exact Hin'.
    + rewrite IH. cbn [remove]. destruct (string_dec k x) as [->|Hne]; [|reflexivity].
      exfalso. apply Hout. apply in_or_app. right. left. reflexivity.
Qed.

Lemma remove_rev (k : string) (l : list string) :
  rev (remove string_dec k l) = remove string_dec k (rev l).
Proof.
  induction l as [|x l IH]; [reflexivity|]. cbn [remove rev].
  rewrite remove_app. cbn [remove].
  destruct (string_dec k x); cbn [rev]; rewrite IH; [rewrite app_nil_r|]; reflexivity.
Qed.

(** X19.  The selector offers every line key of the ridership records
    once, in the order in which the keys first appear: the key of the first
    record, then the options of the other records without that key. *)
Theorem lineas_stc_options (df_stc : list Stc.row) :
  NoDup (lineas_stc df_stc)
  /\ (forall k, In k (lineas_stc df_stc) <-> In k (map Stc.linea_clean df_stc))
  /\ lineas_stc [] = []
  /\ forall r, lineas_stc (r :: df_stc)
               = Stc.linea_clean r
                 :: remove string_dec (Stc.linea_clean r) (lineas_stc df_stc).
Proof.
  unfold lineas_stc. repeat split.
  - apply NoDup_rev, NoDup_nodup.
  - rewrite <- in_rev, nodup_In, <- in_rev. trivial.
  - rewrite <- in_rev, nodup_In, <- in_rev. trivial.
  - intros r. cbn [map rev]. rewrite nodup_app_last, rev_app_distr. cbn [rev List.app].
    rewrite remove_rev. reflexivity.
Qed.

(** ** The bounds of the date pickers *)

Lemma date_leb_refl (a : date) : date_leb a a = true.
Proof. unfold date_leb. rewrite !N.compare_refl. apply N.leb_refl. Qed.

Lemma date_leb_trans (a b c : date) :
  date_leb a b = true -> date_leb b c = true -> date_leb a c = true.
Proof.
  unfold date_leb.
  destruct (N.compare_spec (year a) (year b)), (N.compare_spec (year b) (year c)),
    (N.compare_spec (year a) (year c)); try discriminate; try reflexivity; try lia;
  destruct (N.compare_spec (month a) (month b)), (N.compare_spec (month b) (month c)),
    (N.compare_spec (month a) (month c)); try discriminate; try reflexivity; try lia.
  rewrite !N.leb_le. lia.
Qed.

Lemma date_leb_total (a b : date) : date_leb a b = true \/ date_leb b a = true.
Proof.
  unfold date_leb.
  destruct (N.compare_spec (year a) (year b)), (N.compare_spec (year b) (year a));
    auto; try lia;
  destruct (N.compare_spec (month a) (month b)), (N.compare_spec (month b) (month a));
    auto; try lia.
  rewrite !N.leb_le. lia.
Qed.

Lemma fold_left_date_min (l : list date) (d : date) :
  In (fold_left date_min l d) (d :: l)
  /\ forall x, In x (d :: l) -> date_leb (fold_left date_min l d) x = true.
Proof.
  revert d. induction l as [|y l IH]; intros d; cbn [fold_left].
  - split; [left; reflexivity|]. intros x [<-|[]]. apply date_leb_refl.
  - destruct (IH (date_min d y)) as [Hin Hle]. split.
    + destruct Hin as [Hin|Hin]; [|right; right; exact Hin].
      rewrite <- Hin. unfold date_min. destruct (date_leb d y); [left | right; left];
        reflexivity.
    + assert (Hmin : date_leb (date_min d y) d = true /\ date_leb (date_min d y) y = true).
      { unfold date_min. destruct (date_leb d y) eqn:H.
        - split; [apply date_leb_refl | exact H].
        - split; [|apply date_leb_refl]. destruct (date_leb_total d y); congruence. }
      intros x [<-|[<-|Hx]].
      * apply (date_leb_trans _ (date_min d y)); [apply Hle; left; reflexivity | tauto].
      * apply (date_leb_trans _ (date_min d y)); [apply Hle; left; reflexivity | tauto].
      * apply Hle. right. exact Hx.
Qed.

Lemma fold_left_date_max (l : list date) (d : date) :
  In (fold_left date_max l d) (d :: l)
  /\ forall x, In x (d :: l) -> date_leb x (fold_left date_max l d) = true.
Proof.
  revert d. induction l as [|y l IH]; intros d; cbn [fold_left].
  - split; [left; reflexivity|]. intros x [<-|[]]. apply date_leb_refl.
  - destruct (IH (date_max d y)) as [Hin Hle]. split.
    + destruct Hin as [Hin|Hin]; [|right; right; exact Hin].
      rewrite <- Hin. unfold date_max. destruct (date_leb d y); [right; left | left];
        reflexivity.
    + assert (Hmax : date_leb d (date_max d y) = true /\ date_leb y (date_max d y) = true).
      { unfold date_max. destruct (date_leb d y) eqn:H.
        - split; [exact H | apply date_leb_refl].
        - split; [apply date_leb_refl|]. destruct (date_leb_total d y); congruence. }
      intros x [<-|[<-|Hx]].
      * apply (date_leb_trans _ (date_max d y)); [tauto | apply Hle; left; reflexivity].
      * apply (date_leb_trans _ (date_max d y)); [tauto | apply Hle; left; reflexivity].
      * apply Hle. right. exact Hx.
Qed.

Lemma min_date_spec (df : list Stc.row) :
  match min_date df with
  | None => df = []
  | Some lo =>
      In lo (map Stc.fecha df)
      /\ forall r, In r df -> date_leb lo (Stc.fecha r) = true
  end.
Proof.
  unfold min_date. destruct df as [|r df]; [reflexivity|]. cbn [map].
  destruct (fold_left_date_min (map Stc.fecha df) (Stc.fecha r)) as [Hin Hle].
  split; [exact Hin|]. intros x Hx. apply Hle. apply (in_map Stc.fecha) in Hx. exact Hx.
Qed.

Lemma max_date_spec (df : list Stc.row) :
  match max_date df with
  | None => df = []
  | Some hi =>
      In hi (map Stc.fecha df)
      /\ forall r, In r df -> date_leb (Stc.fecha r) hi = true
  end.
Proof.
  unfold max_date. destruct df as [|r df]; [reflexivity|]. cbn [map].
  destruct (fold_left_date_max (map Stc.fecha df) (Stc.fecha r)) as [Hin Hle].
  split; [exact Hin|]. intros x Hx. apply Hle. apply (in_map Stc.fecha) in Hx. exact Hx.
Qed.

(** X20.  The bounds of the date pickers are the first and the last date
    on which the chosen line has a record with positive ridership: both are
    dates of such records, every such record lies between them, and there
    are no bounds (NaT) exactly when the line has no such record. *)
Theorem date_picker_bounds (df_stc : list Stc.row) (selected_linea_stc : string) :
  let positive := df_filtered_by_line df_stc selected_linea_stc in
  (forall r, In r positive
             <-> In r df_stc
                 /\ Stc.linea_clean r = stc_linea_clean selected_linea_stc
                 /\ (0 < Stc.afluencia r)%Z)
  /\ (min_date positive = None <-> positive = [])
  /\ (max_date positive = None <-> positive = [])
  /\ forall lo hi,
       min_date positive = Some lo -> max_date positive = Some hi ->
       In lo (map Stc.fecha positive) /\ In hi (map Stc.fecha positive)
       /\ date_leb lo hi = true
       /\ forall r, In r positive ->
            date_leb lo (Stc.fecha r) = true /\ date_leb (Stc.fecha r) hi = true.
Proof.
  intros positive. split; [|split; [|split]].
  - intros r. unfold positive, df_filtered_by_line. rewrite filter_In, andb_true_iff.
    rewrite String.eqb_eq, Z.ltb_lt. unfold stc_linea_clean. tauto.
  - pose proof (min_date_spec positive) as H. destruct (min_date positive).
    + split; [discriminate|]. intros Hnil. rewrite Hnil in H. destruct H as [[] _].
    + tauto.
  - pose proof (max_date_spec positive) as H. destruct (max_date positive).
    + split; [discriminate|]. intros Hnil. rewrite Hnil in H. destruct H as [[] _].
    + tauto.
  - intros lo hi Hlo Hhi.
    pose proof (min_date_spec positive) as Hmin. rewrite Hlo in Hmin.
    pose proof (max_date_spec positive) as Hmax. rewrite Hhi in Hmax.
    destruct Hmin as [Hin1 Hle1], Hmax as [Hin2 Hle2]. repeat split; auto.
    apply in_map_iff in Hin2. destruct Hin2 as [r [<- Hr]]. apply Hle1. exact Hr.
Qed.

(** ** The default range *)

Lemma load_year_month (to_datetime : string -> option date) (csv : list Csv.row)
  (df_stc : list Stc.row) :
  load_and_preprocess_data to_datetime csv = Some df_stc ->
  forall r, In r df_stc ->
    Stc.year_month r = strftime_ym (Stc.fecha r)
    /\ exists raw, In raw csv /\ to_datetime (Csv.fecha raw) = Some (Stc.fecha r).
Proof.
  intros Hload. apply load_and_preprocess_data_some in Hload.
  induction Hload as [|raw row csv df [d [e [l [Hd [He [Hl ->]]]]]] _ IH];
    intros r Hr; [contradiction|].
  destruct Hr as [<-|Hr].
  - split; [reflexivity|]. exists raw. split; [left; reflexivity | exact Hd].
  - destruct (IH r Hr) as [H1 [raw' [H2 H3]]]. split; [exact H1|].
    exists raw'. split; [right; exact H2 | exact H3].
Qed.

Lemma date_leb_strftime (a b : date) :
  four_digits a = true -> four_digits b = true -> date_leb a b = true ->
  String.leb (strftime_ym a) (strftime_ym b) = true.
Proof.
  intros Ha Hb Hle. unfold String.leb. rewrite strftime_ym_compare by assumption.
  apply four_digits_bounds in Ha, Hb. unfold month_number. unfold date_leb in Hle.
  destruct (N.compare_spec (100 * year a + month a) (100 * year b + month b));
    try reflexivity.
  exfalso.
  destruct (N.compare_spec (year a) (year b)); try discriminate; try lia.
  destruct (N.compare_spec (month a) (month b)); try discriminate; lia.
Qed.

Lemma merge_left_covers (left : list (group_key * Z)) (right : list Station.row)
  (l : group_key * Z) :
  In l left -> exists r, In r (merge_left left right) /\ month_key r = fst l.
Proof.
  intros Hl.
  assert (Hex : exists r, In r (merge_row right l)).
  { unfold merge_row. destruct (filter (joins l) right) as [|s rest];
      eexists; left; reflexivity. }
  destruct Hex as [r Hr]. exists r. split.
  - unfold merge_left. apply in_flat_map. exists l. auto.
  - apply merge_row_In in Hr.
    destruct Hr as [[_ ->]|[s [_ [_ ->]]]]; apply joined_row_fields.
Qed.

(** X21.  With the default range of the date pickers (from the first to
    the last date on which the chosen line has positive ridership), no
    record with positive ridership of the chosen line is lost: for a line
    key in normal form, and dates whose years have four digits (as those of
    every pandas timestamp), the filtered frame has a row for the month and
    station of every such record. *)
Theorem default_range_keeps_positive_records
  (to_datetime : string -> option date) (csv : list Csv.row)
  (df_stc : list Stc.row) (stations_info : list Station.row)
  (selected_linea_stc : string) (lo hi : date) :
  load_and_preprocess_data to_datetime csv = Some df_stc ->
  (forall x, In x df_stc -> four_digits (Stc.fecha x) = true) ->
  normal_key selected_linea_stc = true ->
  min_date (df_filtered_by_line df_stc selected_linea_stc) = Some lo ->
  max_date (df_filtered_by_line df_stc selected_linea_stc) = Some hi ->
  forall r, In r df_stc ->
    Stc.linea_clean r = selected_linea_stc -> (0 < Stc.afluencia r)%Z ->
    exists row,
      In row (filter_data (month_estacion df_stc stations_info)
                          selected_linea_stc lo hi)
      /\ Month.year_month row = Stc.year_month r
      /\ Month.linea_clean row = selected_linea_stc
      /\ Month.estacion_clean row = Stc.estacion_clean r.
Proof.
  intros Hload Hdate Hkey Hlo Hhi r Hr Hline Hpos.
  set (positive := df_filtered_by_line df_stc selected_linea_stc) in *.
  assert (Hsub : forall x, In x positive -> In x df_stc).
  { intros x Hx. apply filter_In in Hx. tauto. }
  assert (Hrp : In r positive).
  { apply filter_In. split; [exact Hr|]. apply andb_true_iff. split.
    - apply String.eqb_eq. fold (stc_linea_clean selected_linea_stc).
      rewrite stc_linea_clean_fixed by exact Hkey. exact Hline.
    - apply Z.ltb_lt. exact Hpos. }
  pose proof (min_date_spec positive) as Hmin. rewrite Hlo in Hmin.
  pose proof (max_date_spec positive) as Hmax. rewrite Hhi in Hmax.
  destruct Hmin as [Hin1 Hle1], Hmax as [Hin2 Hle2].
  assert (Hlov : four_digits lo = true).
  { apply in_map_iff in Hin1. destruct Hin1 as [x [<- Hx]]. auto. }
  assert (Hhiv : four_digits hi = true).
  { apply in_map_iff in Hin2. destruct Hin2 as [x [<- Hx]]. auto. }
  destruct (load_year_month _ _ _ Hload r Hr) as [Hym _].
  (* the group of the record, and a joined row for it *)
  assert (Hgroup : In (stc_key r) (map fst (groupby_month df_stc))).
  { unfold groupby_month. rewrite map_map. cbn [fst]. rewrite map_id.
    apply sort_by_In, nodup_In, in_map. exact Hr. }
  apply in_map_iff in Hgroup. destruct Hgroup as [l [Hl Hlin]].
  destruct (merge_left_covers _ stations_info l Hlin) as [row [Hrow Hrk]].
  rewrite Hl in Hrk. unfold month_key, stc_key in Hrk. inversion Hrk as [[H1 H2 H3]].
  apply In_nth_error in Hrow. destruct Hrow as [i Hi].
  exists (with_index i row). split.
  - unfold filter_data, reset_index, month_estacion. apply in_map_iff. exists (i, row).
    split; [reflexivity|]. apply select_rows_In. exists i.
    split; [reflexivity|]. split; [exact Hi|].
    unfold in_range. rewrite H1, H2, Hline, Hym.
    unfold normal_key in Hkey. repeat rewrite andb_true_iff in Hkey.
    destruct Hkey as [[_ Hlow] _]. rewrite (lower_lowered _ Hlow), String.eqb_refl.
    rewrite !date_leb_strftime; auto.
  - cbn [with_index Month.year_month Month.linea_clean Month.estacion_clean].
    rewrite H1, H2, H3. auto.
Qed.

Lemma checked_date_valid (y m d : option N) (t : date) :
  checked_date y m d = Some t -> valid_date t = true.
Proof.
  unfold checked_date. destruct y as [y|], m as [m|], d as [d|]; try discriminate.
  destruct (valid_date {| year := y; month := m; day := d |}) eqn:Hv; [|discriminate].
  intros H. inversion H; subst. exact Hv.
Qed.

Lemma iso_to_datetime_valid (s : string) (d : date) :
  iso_to_datetime s = Some d -> valid_date d = true.
Proof.
  unfold iso_to_datetime. intros H.
  repeat (match type of H with
          | context [match ?x with _ => _ end] => destruct x eqn:?
          end; try discriminate);
    eauto using checked_date_valid.
Qed.

Lemma default_range_keeps_positive_records_witness :
  exists row,
    In row (filter_data
              (month_estacion [one_row_record] (load_and_process_kml_data doubled_gdf))
              "linea 1"
              {| year := 2024; month := 1; day := 15 |}
              {| year := 2024; month := 1; day := 15 |})
    /\ Month.year_month row = "2024-01"%string
    /\ Month.linea_clean row = "linea 1"%string
    /\ Month.estacion_clean row = "balderas"%string.
Proof.
  apply (default_range_keeps_positive_records iso_to_datetime one_row_csv
           [one_row_record] (load_and_process_kml_data doubled_gdf) "linea 1"
           {| year := 2024; month := 1; day := 15 |}
           {| year := 2024; month := 1; day := 15 |}
           eq_refl) with (r := one_row_record).
  - intros x [<-|[]]. reflexivity.
  - reflexivity.
  - reflexivity.
  - reflexivity.
  - left. reflexivity.
  - reflexivity.
  - reflexivity.
Defined.

(** ** The order of the labels *)

Lemma leb_ltb (a b : string) : String.leb a b = true -> a <> b -> String.ltb a b = true.
Proof.
  unfold String.leb, String.ltb. destruct (String.compare a b) eqn:Hc;
    try discriminate; try reflexivity.
  intros _ Hne. apply String.compare_eq_iff in Hc. contradiction.
Qed.

Lemma leb_false_ltb (a b : string) : String.leb a b = false -> String.ltb b a = true.
Proof.
  unfold String.leb, String.ltb. rewrite (String.compare_antisym a b).
  destruct (String.compare b a); simpl; congruence.
Qed.

Lemma ltb_leb (a b : string) : String.ltb a b = true -> String.leb a b = true.
Proof.
  unfold String.leb, String.ltb. destruct (String.compare a b); congruence.
Qed.

Lemma ltb_trans (a b c : string) :
  String.ltb a b = true -> String.ltb b c = true -> String.ltb a c = true.
Proof.
  intros Hab Hbc. apply leb_ltb.
  - apply (leb_trans a b c); apply ltb_leb; assumption.
  - intros ->. apply ltb_leb in Hbc. rewrite (ltb_leb_false _ _ Hab) in Hbc.
    discriminate.
Qed.

Lemma insert_ascending (x : string) (l : list string) :
  ascending l -> ~ In x l -> ascending (insert_sorted String.leb x l).
Proof.
  induction l as [|y l IH]; cbn [insert_sorted ascending].
  - intros _ _. split; [intros z [] | exact I].
  - intros [Hy Hl] Hx. destruct (String.leb x y) eqn:Hxy; cbn [ascending].
    + assert (Hlt : String.ltb x y = true).
      { apply leb_ltb; [exact Hxy|]. intros ->. apply Hx. left. reflexivity. }
      repeat split; auto. intros z [<-|Hz]; [exact Hlt|].
      apply (ltb_trans x y z Hlt). apply Hy. exact Hz.
    + split.
      * intros z Hz. apply (Permutation_in _ (insert_sorted_perm _ x l)) in Hz.
        destruct Hz as [<-|Hz]; [apply leb_false_ltb, Hxy | apply Hy, Hz].
      * apply IH; [exact Hl|]. intros H. apply Hx. right. exact H.
Qed.

Lemma unique_sorted_ascending (l : list string) : ascending (unique_sorted l).
Proof.
  unfold unique_sorted. pose proof (NoDup_nodup string_dec l) as Hnd.
  induction (nodup string_dec l) as [|x u IH]; [exact I|].
  inversion Hnd as [|? ? Hx Hu]; subst. cbn [sort_by fold_right].
  apply insert_ascending; [apply IH, Hu|].
  intros H. apply sort_by_In in H. contradiction.
Qed.

(** X22.  The months of the chart and the stations of the map frame are
    in strictly ascending order, each once; and for months written by
    [strftime] from dates whose years have four digits this order is the
    order of time. *)
Theorem labels_are_ascending (filtered_df_stations : list Month.row) :
  (forall chart, create_line_chart filtered_df_stations = Some chart ->
                 ascending (index chart))
  /\ ascending (map Aggregate.estacion_clean
                    (st_map (display_map_and_table filtered_df_stations)))
  /\ forall a b, four_digits a = true -> four_digits b = true ->
       (String.ltb (strftime_ym a) (strftime_ym b) = true
        <-> month_number a < month_number b).
Proof.
  split; [|split].
  - intros chart. unfold create_line_chart, pivot.
    destruct (has_duplicate _ _); [discriminate|].
    unfold get_columns. cbn [index columns values].
    destruct (forallb _ _); [|discriminate].
    intros H. inversion H. cbn [set_column index]. apply unique_sorted_ascending.
  - cbn [display_map_and_table st_map]. rewrite stations_aggregate_eq, map_map.
    cbn [Aggregate.estacion_clean]. rewrite map_id. apply unique_sorted_ascending.
  - intros a b Ha Hb. unfold String.ltb. rewrite strftime_ym_compare by assumption.
    destruct (N.compare_spec (month_number a) (month_number b)); split;
      try discriminate; try reflexivity; lia.
Qed.

(** ** The ridership from the file to the page *)

Lemma filter_filter_implied {A : Type} (p q : A -> bool) (l : list A) :
  (forall x, p x = true -> q x = true) -> filter p (filter q l) = filter p l.
Proof.
  intros Hpq. induction l as [|x l IH]; [reflexivity|]. cbn [filter].
  destruct (q x) eqn:Hq; cbn [filter].
  - rewrite IH. reflexivity.
  - destruct (p x) eqn:Hp; [|exact IH]. rewrite (Hpq x Hp) in Hq. discriminate.
Qed.

Lemma filter_map_swap {A B : Type} (g : A -> B) (p : B -> bool) (l : list A) :
  filter p (map g l) = map g (filter (fun x => p (g x)) l).
Proof.
  induction l as [|x l IH]; [reflexivity|]. cbn [map filter].
  destruct (p (g x)); cbn [map]; rewrite IH; reflexivity.
Qed.

(** Summing the groups whose key passes a test is summing the rows whose
    key passes it. *)
Lemma grouped_sum_filtered {R K : Type} (key : R -> K) (same : K -> K -> bool)
  (val : R -> Z) (keep : K -> bool) (ks : list K) (rows : list R) :
  (forall a b, same a b = true <-> a = b) ->
  NoDup ks -> (forall r, In r rows -> In (key r) ks) ->
  sum_Z (map (fun k => sum_Z (map val (filter (fun r => same (key r) k) rows)))
             (filter keep ks))
  = sum_Z (map val (filter (fun r => keep (key r)) rows)).
Proof.
  intros Hsame Hnd Hcover.
  rewrite <- (grouped_sum key same val Hsame (filter keep ks)
                (filter (fun r => keep (key r)) rows)).
  - f_equal. apply map_ext_in. intros k Hk. apply filter_In in Hk. destruct Hk as [_ Hk].
    rewrite filter_filter_implied; [reflexivity|].
    intros r Hr. apply Hsame in Hr. rewrite Hr. exact Hk.
  - apply NoDup_filter. exact Hnd.
  - intros r Hr. apply filter_In in Hr. destruct Hr as [Hr Hk].
    apply filter_In. auto.
Qed.

Lemma total_column (df : list Month.row) :
  NoDup (map pivot_key df) ->
  exists chart,
    create_line_chart df = Some chart
    /\ column "Total" chart
       = map (fun ym => Some (bucket_total df ym))
             (unique_sorted (map Month.year_month df)).
Proof.
  intros Hnd. rewrite (create_line_chart_unfold _ Hnd).
  eexists. split; [reflexivity|].
  rewrite column_set_column.
  - unfold sum_rows. cbn [values]. rewrite !map_map.
    apply map_ext. intros i. f_equal.
    apply pivot_row_sum; [apply unique_sorted_NoDup | exact Hnd |].
    intros r Hr. apply unique_sorted_In, in_map. exact Hr.
  - cbn [values]. unfold sum_rows. cbn [values]. rewrite !length_map. reflexivity.
  - cbn [values columns]. intros row Hrow. apply in_map_iff in Hrow.
    destruct Hrow as [r [<- _]]. apply length_map.
Qed.

Lemma filtered_ridership (df_stc : list Stc.row) (stations_info : list Station.row)
  (linea : string) (s e : date) :
  NoDup (map station_key stations_info) ->
  sum_Z (map Month.afluencia
           (filter_data (month_estacion df_stc stations_info) linea s e))
  = sum_Z (map Stc.afluencia (filter (selected_record linea s e) df_stc)).
Proof.
  intros Hgeo. unfold filter_data, reset_index, month_estacion. rewrite map_map.
  set (merged := merge_left (groupby_month df_stc) stations_info).
  transitivity (sum_Z (map Month.afluencia
                  (filter (in_range linea (strftime_ym s) (strftime_ym e)) merged))).
  { f_equal. rewrite <- (select_rows_snd _ merged 0%nat), map_map.
    apply map_ext. intros [i r]. reflexivity. }
  transitivity (sum_Z (map snd
                  (filter (fun kt => selected_key linea s e (fst kt))
                          (groupby_month df_stc)))).
  { f_equal. rewrite <- (merge_left_rows (groupby_month df_stc) stations_info Hgeo).
    fold merged. rewrite filter_map_swap, map_map. cbn [fst snd].
    reflexivity. }
  unfold groupby_month. rewrite filter_map_swap, map_map. cbn [fst snd].
  unfold group_total.
  rewrite (grouped_sum_filtered stc_key
             (fun a b => if group_key_dec a b then true else false)
             Stc.afluencia (selected_key linea s e)).
  - reflexivity.
  - exact group_key_same.
  - apply sort_by_NoDup, NoDup_nodup.
  - intros r Hr. apply sort_by_In, nodup_In, in_map. exact Hr.
Qed.

(** X23.  When the geometry has at most one row per (station, line) key,
    the page shows the ridership of the selected records and nothing
    else: the ridership of the filtered frame, the sum of the [Total]
    column of the chart, and the sum of the stations' totals on the map and
    in the table are all the ridership of the records of the file whose
    line key is the lower-cased target and whose month is in the range. *)
Theorem page_conserves_ridership (df_stc : list Stc.row)
  (stations_info : list Station.row) (linea : string) (start_date end_date : date) :
  NoDup (map station_key stations_info) ->
  let filtered :=
    filter_data (month_estacion df_stc stations_info) linea start_date end_date in
  let ridership :=
    sum_Z (map Stc.afluencia
             (filter (selected_record linea start_date end_date) df_stc)) in
  sum_Z (map Month.afluencia filtered) = ridership
  /\ (exists chart,
        create_line_chart filtered = Some chart
        /\ sum_Z (map nan_to_zero (column "Total" chart)) = ridership)
  /\ sum_Z (map Aggregate.afluencia (st_map (display_map_and_table filtered)))
     = ridership.
Proof.
  intros Hgeo filtered ridership.
  assert (Hsum : sum_Z (map Month.afluencia filtered) = ridership)
    by (apply filtered_ridership; exact Hgeo).
  assert (Hnd : NoDup (map pivot_key filtered)).
  { apply filter_data_labels. unfold month_estacion.
    rewrite merge_left_keys by exact Hgeo. apply groupby_month_keys. }
  split; [exact Hsum|]. split.
  - destruct (total_column filtered Hnd) as [chart [Hchart Hcol]].
    exists chart. split; [exact Hchart|]. rewrite Hcol, map_map. cbn [nan_to_zero].
    rewrite <- Hsum. unfold bucket_total.
    apply (grouped_sum Month.year_month String.eqb Month.afluencia).
    + exact String.eqb_eq.
    + apply unique_sorted_NoDup.
    + intros r Hr. apply unique_sorted_In, in_map. exact Hr.
  - rewrite <- Hsum. cbn [display_map_and_table st_map]. rewrite aggregate_afluencia.
    unfold station_total.
    apply (grouped_sum Month.estacion_clean String.eqb Month.afluencia).
    + exact String.eqb_eq.
    + apply unique_sorted_NoDup.
    + intros r Hr. apply unique_sorted_In, in_map. exact Hr.
Qed.

Lemma page_conserves_ridership_witness :
  sum_Z (map Month.afluencia
           (filter_data
              (month_estacion [one_row_record]
                 (load_and_process_kml_data (firstn 1 doubled_gdf)))
              "LINEA 1"
              {| year := 2024; month := 1; day := 1 |}
              {| year := 2024; month := 1; day := 31 |}))
  = 100%Z.
Proof.
  destruct (page_conserves_ridership [one_row_record]
              (load_and_process_kml_data (firstn 1 doubled_gdf)) "LINEA 1"
              {| year := 2024; month := 1; day := 1 |}
              {| year := 2024; month := 1; day := 31 |}) as [H _].
  - apply has_duplicate_false. reflexivity.
  - exact H.
Defined.
